(** * Chatbot.py: the backoff-retrying call wrapper and the interaction loop

    A shallow embedding of [src/Chatbot.py].  Python values are modelled as
    the program uses them:

    - a [str] is the list of its Unicode code points;
    - an [int] ([max_retries], [initial_delay], the loop index) is a [Z];
    - an exception is a value with the one piece of class information the
      program inspects, namely whether it derives from [Exception] (this is
      what [except Exception] tests);
    - the statements of the program run in a state-and-exception monad whose
      state is the chronological trace of what the program did to the
      outside world: messages handed to [send_message], completed sleeps,
      prompts and printed lines.

    The remote chat session is an arbitrary deterministic function of the
    messages it has been sent so far; it may return a response or raise.
    [time.sleep] is the one of CPython 3.11, with its refusals of negative
    and of overlong lengths.  [print] and the formatting of an exception
    inside an f-string are taken to succeed, standard input to be text
    that [input] can decode, and asynchronous interruptions (signals) are
    not modelled. *)

From Stdlib Require Import ZArith NArith List Bool String Ascii Lia.
Import ListNotations.

Local Open Scope Z_scope.

(** ** Python strings *)

Module PyStr.

Definition codepoint := N.
Definition pystr := list codepoint.

(** A literal, written as a Rocq string of ASCII characters. *)
Definition str (s : string) : pystr :=
  map N_of_ascii (list_ascii_of_string s).

Definition in_range (lo hi c : N) : bool := (N.leb lo c && N.leb c hi)%bool.

(** [str.isspace] on one code point: the characters CPython's
    [_PyUnicode_IsWhitespace] accepts. *)
Definition isspace (c : codepoint) : bool :=
  (in_range 9 13 c || in_range 28 32 c || N.eqb c 133 || N.eqb c 160
   || N.eqb c 5760 || in_range 8192 8202 c || N.eqb c 8232 || N.eqb c 8233
   || N.eqb c 8239 || N.eqb c 8287 || N.eqb c 12288)%bool.

Fixpoint lstrip (s : pystr) : pystr :=
  match s with
  | [] => []
  | c :: s' => if isspace c then lstrip s' else s
  end.

Definition rstrip (s : pystr) : pystr := rev (lstrip (rev s)).

(** [s.strip()] with no argument. *)
Definition strip (s : pystr) : pystr := rstrip (lstrip s).

Definition is_ascii (c : codepoint) : bool := N.ltb c 128.

Definition ascii_lower (c : codepoint) : codepoint :=
  if in_range 65 90 c then (c + 32)%N else c.

Fixpoint eqb (a b : pystr) : bool :=
  match a, b with
  | [], [] => true
  | x :: a', y :: b' => (N.eqb x y && eqb a' b')%bool
  | _, _ => false
  end.

(** [x in [a, b, ...]] for a list of strings. *)
Definition member (x : pystr) (l : list pystr) : bool := existsb (eqb x) l.

(** Truth value of a string: non-empty. *)
Definition truthy (s : pystr) : bool :=
  match s with [] => false | _ :: _ => true end.

Section Lower.
(** The Unicode lower-casing of a string that is not pure ASCII (a table
    of the interpreter, context dependent for some letters) is left
    abstract. *)
Variable unicode_lower : pystr -> pystr.

(** [s.lower()]: CPython lower-cases a pure-ASCII string character by
    character and sends every other string through the Unicode tables. *)
Definition lower (s : pystr) : pystr :=
  if forallb is_ascii s then map ascii_lower s else unicode_lower s.
End Lower.

End PyStr.
Import PyStr.

(** ** Exceptions, results and the world *)

Record exn := Exn
  { derives_Exception : bool;   (* is the class a subclass of [Exception]? *)
    exn_repr : string }.

(** What [time.sleep] raises for a negative argument. *)
Definition ValueError_sleep : exn :=
  Exn true "ValueError: sleep length must be non-negative".

(** What [time.sleep] raises for a length it cannot hold. *)
Definition OverflowError_sleep : exn :=
  Exn true "OverflowError: timestamp too large to convert to C _PyTime_t".

(** What [input] raises at the end of standard input. *)
Definition EOFError : exn := Exn true "EOFError: EOF when reading a line".

Inductive result (A : Type) : Type :=
| Return (a : A)
| Raise (e : exn).
Arguments Return {A} a.
Arguments Raise {A} e.

(** The reply object of the remote API: its truth value and what reading its
    [text] attribute gives (a property of the library that may raise). *)
Record response := Response
  { resp_truthy : bool;
    resp_text : result pystr }.

(** Lines the program prints. *)
Inductive output :=
| OApiCallFailed (attempt max_retries : Z) (e : exn)
    (* "API call failed (attempt {i+1}/{max_retries}): {e}" *)
| OWelcomeBanner
| OPrompt                       (* "You: ", written by [input] *)
| OGoodbye                      (* "\nGoodbye! Thanks for chatting." *)
| OPleaseEnter                  (* "Bot: Please enter something to chat with me." *)
| OBot (formatted : pystr)      (* "Bot:", formatted_response *)
| ONoClearResponse              (* "Bot: I didn't get a clear response. Please try again." *)
| OUnrecoverable (e : exn)      (* "Bot: An unrecoverable error occurred during the API call: {e}" *)
| OInterrupted                  (* "The chat session might be interrupted. Please restart if needed." *)
| OSessionEnded.                (* the closing banner *)

Inductive event :=
| ESend (m : pystr)             (* [chat_session.send_message(m)] was invoked *)
| ESleep (d : Z)                (* [time.sleep(d)] ran to completion *)
| EPrint (o : output).

Definition trace := list event.

(** The messages handed to [send_message] so far, oldest first. *)
Fixpoint sent (t : trace) : list pystr :=
  match t with
  | [] => []
  | ESend m :: t' => m :: sent t'
  | _ :: t' => sent t'
  end.

(** Number of invocations of the remote operation recorded in a trace. *)
Definition invocations (t : trace) : Z := Z.of_nat (List.length (sent t)).

(** The completed sleeps of a trace, oldest first, and their total. *)
Fixpoint sleeps (t : trace) : list Z :=
  match t with
  | [] => []
  | ESleep d :: t' => d :: sleeps t'
  | _ :: t' => sleeps t'
  end.

Definition total_sleep (t : trace) : Z := fold_right Z.add 0 (sleeps t).

(** A chat session: the outcome of [send_message(m)] given the messages
    sent on the session before. *)
Definition chat_session := list pystr -> pystr -> result response.

(** ** The monad of the program's statements *)

Definition M (A : Type) : Type := trace -> result A * trace.

Definition ret {A} (a : A) : M A := fun t => (Return a, t).

Definition raise {A} (e : exn) : M A := fun t => (Raise e, t).

Definition bind {A B} (c : M A) (k : A -> M B) : M B :=
  fun t =>
    match c t with
    | (Return a, t') => k a t'
    | (Raise e, t') => (Raise e, t')
    end.

Declare Scope py_scope.
Delimit Scope py_scope with py.
Notation "x <- c ;; k" := (bind c (fun x => k))
  (at level 61, c at next level, right associativity) : py_scope.
Notation "c ;; k" := (bind c (fun _ => k))
  (at level 61, right associativity) : py_scope.
Local Open Scope py_scope.

(** [try: body  except Exception as e: handler e].  Only exceptions deriving
    from [Exception] are caught; what the handler raises propagates. *)
Definition try_except {A} (body : M A) (handler : exn -> M A) : M A :=
  fun t =>
    match body t with
    | (Return a, t') => (Return a, t')
    | (Raise e, t') =>
        if derives_Exception e then handler e t' else (Raise e, t')
    end.

Definition print (o : output) : M unit := fun t => (Return tt, t ++ [EPrint o]).

(** The longest sleep, in whole seconds, CPython can hold: it converts the
    length to a signed 64-bit count of nanoseconds. *)
Definition sleep_limit : Z := 9223372036.

(** What [time.sleep(d)] raises before any waiting, if anything.  The
    conversion comes first: a length beyond the limit on either side is
    refused with [OverflowError]; then a negative length is refused with
    [ValueError]. *)
Definition sleep_refusal (d : Z) : option exn :=
  if ((d <? - sleep_limit) || (sleep_limit <? d))%bool
  then Some OverflowError_sleep
  else if d <? 0 then Some ValueError_sleep
  else None.

(** [time.sleep(d)] for an integer [d]: refused as above, or else the
    process blocks for [d] seconds. *)
Definition time_sleep (d : Z) : M unit :=
  fun t =>
    match sleep_refusal d with
    | Some e => (Raise e, t)
    | None => (Return tt, t ++ [ESleep d])
    end.

Definition send_message (chat : chat_session) (m : pystr) : M response :=
  fun t => (chat (sent t) m, t ++ [ESend m]).

(** ** call_api_with_backoff (lines 42-71) *)

(** How one pass through the body of the [for] loop ends: with the
    function's [return response], or by falling through to the next index
    with the doubled delay. *)
Inductive pass :=
| Returned (r : response)
| NextIndex (delay : Z).

(** The passes of [for i in range(max_retries)] that remain, [n] of them,
    the next one at index [i] with the current [delay]. *)
Fixpoint backoff_loop (chat : chat_session) (user_message : pystr)
    (max_retries : Z) (n : nat) (i delay : Z) : M (option response) :=
  match n with
  | O => ret None
  | S n' =>
      p <- try_except
             (response <- send_message chat user_message ;;
              ret (Returned response))
             (fun e =>
                print (OApiCallFailed (i + 1) max_retries e) ;;
                if i <? max_retries - 1
                then time_sleep delay ;; ret (NextIndex (delay * 2))
                else raise e) ;;
      match p with
      | Returned response => ret (Some response)
      | NextIndex delay' =>
          backoff_loop chat user_message max_retries n' (i + 1) delay'
      end
  end.

Definition call_api_with_backoff (chat : chat_session) (user_message : pystr)
    (max_retries initial_delay : Z) : M (option response) :=
  backoff_loop chat user_message max_retries (Z.to_nat max_retries) 0
    initial_delay.

(** ** run_chatbot (lines 75-128) *)

Inductive control :=
| Break
| Continue.

Section InteractionLoop.

(** Tables and formatting of the Python library, left abstract. *)
Variable unicode_lower : pystr -> pystr.
Variable textwrap_fill : pystr -> Z -> pystr.

(** Lines 110-117.  Reading [response.text] is taken to give the same
    outcome each time it is read on one reply. *)
Definition show_response (response : option response) : M unit :=
  match response with
  | None => print ONoClearResponse
  | Some r =>
      if resp_truthy r then
        match resp_text r with
        | Raise e => raise e
        | Return text =>
            if truthy text then print (OBot (textwrap_fill text 80))
            else print ONoClearResponse
        end
      else print ONoClearResponse
  end.

(** Lines 93-123: one pass through the body of [while True], given the
    line [input] returned. *)
Definition loop_body (chat : chat_session) (line : pystr) : M control :=
  let user_input := strip line in
  if member (lower unicode_lower user_input) [str "exit"; str "quit"] then
    print OGoodbye ;; ret Break
  else if negb (truthy user_input) then
    print OPleaseEnter ;; ret Continue
  else
    try_except
      (response <- call_api_with_backoff chat user_input 5 1 ;;
       show_response response ;;
       ret Continue)
      (fun e =>
         print (OUnrecoverable e) ;;
         print OInterrupted ;;
         ret Break).

(** Lines 92-123: the loop over the lines standard input still holds.
    Standard input is taken to be text [input] can decode, so that each
    call returns the next line; [input] writes its prompt and raises
    [EOFError] once the lines run out.  The call is outside the [try], so
    that exception leaves the loop. *)
Fixpoint interaction_loop (chat : chat_session) (stdin : list pystr)
    : M unit :=
  match stdin with
  | [] => print OPrompt ;; raise EOFError
  | line :: rest =>
      print OPrompt ;;
      c <- loop_body chat line ;;
      match c with
      | Break => ret tt
      | Continue => interaction_loop chat rest
      end
  end.

(** [run_chatbot] once the API is configured, the model initialised and
    the session [chat] started (lines 77-83 succeeded). *)
Definition run_chatbot (chat : chat_session) (stdin : list pystr) : M unit :=
  print OWelcomeBanner ;;
  interaction_loop chat stdin ;;
  print OSessionEnded.

End InteractionLoop.

(** ** Vocabulary of the statements *)

(** The outcome of the [k]-th invocation (counting from 1) that a call of
    [call_api_with_backoff] makes, when [h] was sent on the session before
    the call: the call has by then sent [m] another [k - 1] times. *)
Definition invocation (chat : chat_session) (h : list pystr) (m : pystr)
    (k : Z) : result response :=
  chat (h ++ repeat m (Z.to_nat (k - 1))) m.

(** An invocation fails: it raises an exception deriving from [Exception]. *)
Definition fails (o : result response) : Prop :=
  exists e, o = Raise e /\ derives_Exception e = true.

(** The operation fails whenever it is invoked with [m]. *)
Definition always_fails (chat : chat_session) (m : pystr) : Prop :=
  forall h, fails (chat h m).

(** [s] is the keyword [kw] (lower-case ASCII letters) in some letter case. *)
Definition same_letter (c k : codepoint) : Prop := c = k \/ c = (k - 32)%N.

Definition in_any_case (kw s : pystr) : Prop := Forall2 same_letter s kw.

Definition exit_keyword (s : pystr) : Prop :=
  in_any_case (str "exit") s \/ in_any_case (str "quit") s.

(** The first [n] delays of a call, [D], [2 * D], [4 * D], ..., are lengths
    [time.sleep] accepts. *)
Definition delays_accepted (D n : Z) : Prop :=
  forall j, 0 <= j < n -> 0 <= D * 2 ^ j <= sleep_limit.

(** [s] is empty or made of white space only. *)
Definition blank (s : pystr) : Prop := Forall (fun c => isspace c = true) s.

Definition lowercase_letter (k : codepoint) : Prop := (97 <= k <= 122)%N.

(** The delays of [j] consecutive retries that start from delay [d]. *)
Definition doubling (d : Z) (j : nat) : list Z :=
  map (fun q => d * 2 ^ Z.of_nat q) (seq 0 j).

(** ** Sessions used as concrete instances *)

Definition unavailable : exn := Exn true "ServiceUnavailable: 503".

Definition hello : response := Response true (Return (str "Hello!")).

(** A session whose every invocation fails. *)
Definition down : chat_session := fun _ _ => Raise unavailable.

(** A session whose first [n] invocations fail and whose later ones are
    interrupted from the keyboard. *)
Definition interrupt : exn := Exn false "KeyboardInterrupt".

Definition interrupted_after (n : nat) : chat_session :=
  fun h _ => if (List.length h <? n)%nat then Raise unavailable else Raise interrupt.

(** A session whose first [n] invocations fail and whose later ones reply. *)
Definition flaky (n : nat) : chat_session :=
  fun h _ => if (List.length h <? n)%nat then Raise unavailable else Return hello.

(** ** Start-up: configure_gemini_api, get_gemini_model and the script
    entry (lines 9-37, 75-83 and 131-132)

    The start-up code talks to the process environment and to the vendor
    library only.  Both are taken as they are given: the value
    [os.environ.get("GOOGLE_API_KEY")] returns, and the outcomes of
    [genai.configure], [genai.GenerativeModel] and [model.start_chat].
    Its statements run in a writer-and-exception monad that logs the
    library calls made and the lines printed. *)

Module Startup.

(** Lines the start-up code prints. *)
Inductive startup_output :=
| OConfigured                   (* "Gemini API configured successfully." *)
| OConfigError (e : exn)        (* "Error configuring Gemini API: {e}" *)
| OEnsureKey                    (* "Please ensure your GOOGLE_API_KEY environment variable is correctly set." *)
| OInitialized (model_name : pystr)           (* "Initialized model: {model_name}" *)
| OInitError (model_name : pystr) (e : exn)   (* "Error initializing model '{model_name}': {e}" *)
| OCheckModel.                  (* "Please check if the model name is correct and accessible with your API key." *)

Inductive startup_event :=
| SConfigure (api_key : pystr)      (* [genai.configure(api_key=api_key)] was called *)
| SGenerativeModel (name : pystr)   (* [genai.GenerativeModel(name)] was called *)
| SStartChat                        (* [model.start_chat(history=[])] was called *)
| SPrint (o : startup_output).

(** A model object: what starting a chat on it gives. *)
Record generative_model := GenerativeModelObject
  { start_chat : result chat_session }.

(** The vendor library: [configure] by the key it is given, and the
    constructor [GenerativeModel] by the key configured and the model name. *)
Record genai := Genai
  { configure : pystr -> result unit;
    GenerativeModel : pystr -> pystr -> result generative_model }.

(** What [raise ValueError(...)] on line 15 raises. *)
Definition ValueError_key : exn :=
  Exn true "ValueError: GOOGLE_API_KEY environment variable not set.".

(** What [exit(1)] raises; [SystemExit] does not derive from [Exception]. *)
Definition SystemExit_1 : exn := Exn false "SystemExit: 1".

Definition W (A : Type) : Type := (result A * list startup_event)%type.

Definition wret {A} (a : A) : W A := (Return a, []).

Definition wraise {A} (e : exn) : W A := (Raise e, []).

Definition wbind {A B} (c : W A) (k : A -> W B) : W B :=
  match c with
  | (Return a, l) => let (r, l') := k a in (r, l ++ l')
  | (Raise e, l) => (Raise e, l)
  end.

Declare Scope startup_scope.
Delimit Scope startup_scope with startup.
Notation "x <- c ;; k" := (wbind c (fun x => k))
  (at level 61, c at next level, right associativity) : startup_scope.
Notation "c ;; k" := (wbind c (fun _ => k))
  (at level 61, right associativity) : startup_scope.
Local Open Scope startup_scope.

(** [try: body  except Exception as e: handler e]. *)
Definition wtry {A} (body : W A) (handler : exn -> W A) : W A :=
  match body with
  | (Return a, l) => (Return a, l)
  | (Raise e, l) =>
      if derives_Exception e
      then let (r, l') := handler e in (r, l ++ l')
      else (Raise e, l)
  end.

Definition wprint (o : startup_output) : W unit := (Return tt, [SPrint o]).

(** A call into the library, logged whatever its outcome. *)
Definition wcall {A} (ev : startup_event) (outcome : result A) : W A :=
  (outcome, [ev]).

(** Truth value of what [os.environ.get] returned: [None] and the empty
    string are false. *)
Definition key_truthy (api_key : option pystr) : bool :=
  match api_key with
  | None => false
  | Some s => truthy s
  end.

(** Lines 9-22.  [environ_get] is what
    [os.environ.get("GOOGLE_API_KEY")] returns. *)
Definition configure_gemini_api (environ_get : option pystr) (lib : genai)
    : W unit :=
  wtry
    (match environ_get with
     | Some api_key =>
         if negb (truthy api_key) then wraise ValueError_key
         else
           wcall (SConfigure api_key) (configure lib api_key) ;;
           wprint OConfigured
     | None => wraise ValueError_key
     end)
    (fun e =>
       wprint (OConfigError e) ;;
       wprint OEnsureKey ;;
       wraise SystemExit_1).

(** The default of [model_name]. *)
Definition default_model_name : pystr := str "gemini-1.5-flash".

(** Lines 27-37.  [constructor] is [genai.GenerativeModel] in the state
    the library is in. *)
Definition get_gemini_model
    (constructor : pystr -> result generative_model) (model_name : pystr)
    : W generative_model :=
  wtry
    (model <- wcall (SGenerativeModel model_name) (constructor model_name) ;;
     wprint (OInitialized model_name) ;;
     wret model)
    (fun e =>
       wprint (OInitError model_name e) ;;
       wprint OCheckModel ;;
       wraise SystemExit_1).

(** Lines 77-83: the three start-up steps of [run_chatbot].  The key
    configured is the one the environment gave. *)
Definition start_session (environ_get : option pystr) (lib : genai)
    : W chat_session :=
  configure_gemini_api environ_get lib ;;
  model <- get_gemini_model
             (GenerativeModel lib
                (match environ_get with Some k => k | None => [] end))
             default_model_name ;;
  wcall SStartChat (start_chat model).

End Startup.
Import Startup.

(** Lines 131-132 with lines 75-128: the script run as a program, given the
    environment, the library and the lines on standard input.  The result
    is how [run_chatbot] ends, with the start-up log and the trace of the
    conversation. *)
Definition main (unicode_lower : pystr -> pystr)
    (textwrap_fill : pystr -> Z -> pystr)
    (environ_get : option pystr) (lib : genai) (stdin : list pystr)
    : result unit * (list startup_event * trace) :=
  match start_session environ_get lib with
  | (Return chat, log) =>
      let (r, t) := run_chatbot unicode_lower textwrap_fill chat stdin [] in
      (r, (log, t))
  | (Raise e, log) => (Raise e, (log, []))
  end.

(** ** Libraries used as concrete instances *)

(** A library that accepts every key and builds a model on which [chat]
    starts. *)
Definition working_library (chat : chat_session) : genai :=
  Genai (fun _ => Return tt)
        (fun _ _ => Return (GenerativeModelObject (Return chat))).

(** A library that knows no model. *)
Definition no_such_model : exn := Exn true "NotFound: 404 model not found".

Definition library_without_model : genai :=
  Genai (fun _ => Return tt) (fun _ _ => Raise no_such_model).

(** A library on whose model no chat can be started. *)
Definition library_without_chat : genai :=
  Genai (fun _ => Return tt)
        (fun _ _ => Return (GenerativeModelObject (Raise unavailable))).

(** ** Traces *)

Lemma sent_app (t1 t2 : trace) : sent (t1 ++ t2) = sent t1 ++ sent t2.
Proof.
  induction t1 as [|ev t1 IH]; [reflexivity|].
  destruct ev; cbn [app sent]; rewrite IH; reflexivity.
Qed.

Lemma sleeps_app (t1 t2 : trace) : sleeps (t1 ++ t2) = sleeps t1 ++ sleeps t2.
Proof.
  induction t1 as [|ev t1 IH]; [reflexivity|].
  destruct ev; cbn [app sleeps]; rewrite IH; reflexivity.
Qed.

Lemma invocations_app (t1 t2 : trace) :
  invocations (t1 ++ t2) = invocations t1 + invocations t2.
Proof.
  unfold invocations. rewrite sent_app, length_app. lia.
Qed.

Lemma total_sleep_app (t1 t2 : trace) :
  total_sleep (t1 ++ t2) = total_sleep t1 + total_sleep t2.
Proof.
  unfold total_sleep. rewrite sleeps_app.
  induction (sleeps t1) as [|d l IH]; cbn [app fold_right]; lia.
Qed.

(** ** The lengths time.sleep accepts *)

Ltac sleep_cases d :=
  unfold sleep_refusal;
  destruct (d <? - sleep_limit) eqn:Hlow;
  destruct (sleep_limit <? d) eqn:Hhigh;
  destruct (d <? 0) eqn:Hneg; cbn [orb];
  rewrite ?Z.ltb_lt, ?Z.ltb_ge in Hlow, Hhigh, Hneg;
  unfold sleep_limit in *.

Lemma sleep_accepted d : sleep_refusal d = None <-> 0 <= d <= sleep_limit.
Proof.
  sleep_cases d; split; intros Hyp;
    try discriminate Hyp; try reflexivity; lia.
Qed.

Lemma sleep_refused_negative d :
  - sleep_limit <= d < 0 -> sleep_refusal d = Some ValueError_sleep.
Proof.
  intros Hyp. sleep_cases d; try reflexivity; lia.
Qed.

Lemma sleep_refused_beyond_limit d :
  d < - sleep_limit \/ sleep_limit < d ->
  sleep_refusal d = Some OverflowError_sleep.
Proof.
  intros Hyp. sleep_cases d; try reflexivity; lia.
Qed.

(** It is enough that the first delay is not negative and the last one
    not beyond the limit. *)
Lemma delays_accepted_upto D n :
  0 <= D -> D * 2 ^ (n - 1) <= sleep_limit -> delays_accepted D n.
Proof.
  intros HD Hlast j Hj. split.
  - apply Z.mul_nonneg_nonneg; [exact HD|]. apply Z.pow_nonneg. lia.
  - apply Z.le_trans with (D * 2 ^ (n - 1)); [|exact Hlast].
    apply Z.mul_le_mono_nonneg_l; [exact HD|].
    apply Z.pow_le_mono_r; lia.
Qed.

Lemma delays_accepted_nat D n q :
  delays_accepted D n -> (q < Z.to_nat n)%nat ->
  sleep_refusal (D * 2 ^ Z.of_nat q) = None.
Proof.
  intros H Hq. apply sleep_accepted. apply H. lia.
Qed.

(** ** One pass of the retry loop *)

Section OnePass.

Variables (chat : chat_session) (m : pystr) (R : Z).

(** The invocation returns: the function returns its reply at once. *)
Lemma backoff_loop_returns n i d t r :
  chat (sent t) m = Return r ->
  backoff_loop chat m R (S n) i d t = (Return (Some r), t ++ [ESend m]).
Proof.
  intros H. cbn [backoff_loop].
  unfold bind, try_except, send_message, ret. rewrite H. reflexivity.
Qed.

(** The invocation fails before the last index: report, sleep, double. *)
Lemma backoff_loop_retries n i d t e :
  chat (sent t) m = Raise e -> derives_Exception e = true ->
  i < R - 1 -> sleep_refusal d = None ->
  backoff_loop chat m R (S n) i d t =
  backoff_loop chat m R n (i + 1) (d * 2)
    (t ++ [ESend m; EPrint (OApiCallFailed (i + 1) R e); ESleep d]).
Proof.
  intros H He Hi Hd. cbn [backoff_loop].
  unfold bind at 1. unfold try_except, bind, send_message, ret.
  rewrite H, He. unfold print, time_sleep.
  apply Z.ltb_lt in Hi. rewrite Hi, Hd.
  rewrite <- !app_assoc. reflexivity.
Qed.

(** The invocation fails at the last index: report and re-raise. *)
Lemma backoff_loop_gives_up n i d t e :
  chat (sent t) m = Raise e -> derives_Exception e = true ->
  R - 1 <= i ->
  backoff_loop chat m R (S n) i d t =
  (Raise e, t ++ [ESend m; EPrint (OApiCallFailed (i + 1) R e)]).
Proof.
  intros H He Hi. cbn [backoff_loop].
  unfold bind at 1. unfold try_except, bind, send_message, ret.
  rewrite H, He. unfold print, raise.
  destruct (Z.ltb_spec i (R - 1)) as [Hlt|_]; [lia|].
  rewrite <- !app_assoc. reflexivity.
Qed.

(** The sleep is refused: its exception leaves the handler. *)
Lemma backoff_loop_sleep_refused n i d t e e' :
  chat (sent t) m = Raise e -> derives_Exception e = true ->
  i < R - 1 -> sleep_refusal d = Some e' ->
  backoff_loop chat m R (S n) i d t =
  (Raise e', t ++ [ESend m; EPrint (OApiCallFailed (i + 1) R e)]).
Proof.
  intros H He Hi Hd. cbn [backoff_loop].
  unfold bind at 1. unfold try_except, bind, send_message, ret.
  rewrite H, He. unfold print, time_sleep.
  apply Z.ltb_lt in Hi. rewrite Hi, Hd.
  rewrite <- !app_assoc. reflexivity.
Qed.

(** An exception outside [Exception] is not caught. *)
Lemma backoff_loop_not_caught n i d t e :
  chat (sent t) m = Raise e -> derives_Exception e = false ->
  backoff_loop chat m R (S n) i d t = (Raise e, t ++ [ESend m]).
Proof.
  intros H He. cbn [backoff_loop].
  unfold bind, try_except, send_message, ret. rewrite H, He. reflexivity.
Qed.

(** Every pass starts by invoking the operation, and the loop only ever
    extends the trace. *)
Lemma backoff_loop_starts_with_send n i d t :
  exists res post,
    backoff_loop chat m R (S n) i d t = (res, t ++ ESend m :: post).
Proof.
  revert i d t. induction n as [|n IH]; intros i d t;
    (destruct (chat (sent t) m) as [r|e] eqn:H;
       [rewrite (backoff_loop_returns _ _ _ _ _ H); eauto|]);
    (destruct (derives_Exception e) eqn:He;
       [|rewrite (backoff_loop_not_caught _ _ _ _ _ H He); eauto]);
    (destruct (Z.lt_ge_cases i (R - 1)) as [Hi|Hi];
       [|rewrite (backoff_loop_gives_up _ _ _ _ _ H He Hi);
         cbn [app]; eauto]);
    (destruct (sleep_refusal d) as [e'|] eqn:Hd;
       [rewrite (backoff_loop_sleep_refused _ _ _ _ _ _ H He Hi Hd);
        cbn [app]; eauto|]);
    rewrite (backoff_loop_retries _ _ _ _ _ H He Hi Hd).
  - cbn [backoff_loop]. unfold ret. cbn [app]. eauto.
  - destruct (IH (i + 1) (d * 2)
                (t ++ [ESend m; EPrint (OApiCallFailed (i + 1) R e); ESleep d]))
      as (res & post & E).
    rewrite E, <- app_assoc. cbn [app]. eauto.
Qed.

End OnePass.

(** ** Several failed passes in a row *)


Lemma doubling_S d j : doubling d (S j) = d :: doubling (d * 2) j.
Proof.
  unfold doubling. cbn [seq map]. f_equal; [cbn; lia|].
  rewrite <- seq_shift, map_map. apply map_ext. intros q.
  rewrite Nat2Z.inj_succ, Z.pow_succ_r by lia. lia.
Qed.

Lemma doubling_sum d j :
  fold_right Z.add 0 (doubling d j) = d * (2 ^ Z.of_nat j - 1).
Proof.
  revert d. induction j as [|j IH]; intros d.
  - cbn. lia.
  - rewrite doubling_S. cbn [fold_right]. rewrite IH.
    rewrite Nat2Z.inj_succ, Z.pow_succ_r by lia. lia.
Qed.

Section FailedPasses.

Variables (chat : chat_session) (m : pystr) (R : Z).

(** If the next [j] invocations fail and index [i + j] is still within
    the range, the loop goes through [j] passes that each invoke, report
    and sleep, the delays doubling from [d], and arrives at index
    [i + j] with delay [d * 2^j]. *)
Lemma backoff_loop_failed_passes j :
  forall n i d t,
    (forall q, (q < j)%nat -> fails (chat (sent t ++ repeat m q) m)) ->
    i + Z.of_nat j <= R - 1 ->
    (forall q, (q < j)%nat -> sleep_refusal (d * 2 ^ Z.of_nat q) = None) ->
    exists evs,
      backoff_loop chat m R (j + n) i d t =
      backoff_loop chat m R n (i + Z.of_nat j) (d * 2 ^ Z.of_nat j)
        (t ++ evs)
      /\ sent evs = repeat m j
      /\ sleeps evs = doubling d j
      /\ match j with
         | O => evs = []
         | S j' => exists evs', evs = evs' ++ [ESleep (d * 2 ^ Z.of_nat j')]
         end.
Proof.
  induction j as [|j IH]; intros n i d t Hfail Hi Hd.
  - exists []. rewrite app_nil_r, Z.add_0_r. cbn [Z.of_nat Z.pow].
    rewrite Z.mul_1_r. repeat split.
  - destruct (Hfail 0%nat ltac:(lia)) as (e & He & Hexc).
    cbn [repeat] in He. rewrite app_nil_r in He.
    cbn [Nat.add].
    assert (Hd0 : sleep_refusal d = None).
    { specialize (Hd 0%nat ltac:(lia)). cbn [Z.of_nat Z.pow] in Hd.
      rewrite Z.mul_1_r in Hd. exact Hd. }
    rewrite (backoff_loop_retries chat m R _ _ _ _ _ He Hexc) by (lia || exact Hd0).
    set (round := [ESend m; EPrint (OApiCallFailed (i + 1) R e); ESleep d]).
    destruct (IH n (i + 1) (d * 2) (t ++ round)) as (evs & E & Hs & Hz & Hl).
    + intros q Hq. rewrite sent_app. cbn [round sent].
      rewrite <- app_assoc. cbn [app].
      apply (Hfail (S q)). lia.
    + lia.
    + intros q Hq. specialize (Hd (S q) ltac:(lia)).
      rewrite Nat2Z.inj_succ, Z.pow_succ_r in Hd by lia.
      replace (d * 2 * 2 ^ Z.of_nat q) with (d * (2 * 2 ^ Z.of_nat q)) by lia.
      exact Hd.
    + exists (round ++ evs). rewrite E, <- app_assoc.
      replace (i + 1 + Z.of_nat j) with (i + Z.of_nat (S j)) by lia.
      replace (d * 2 * 2 ^ Z.of_nat j) with (d * 2 ^ Z.of_nat (S j))
        by (rewrite Nat2Z.inj_succ, Z.pow_succ_r by lia; lia).
      split; [reflexivity|]. split; [|split].
      * rewrite sent_app, Hs. reflexivity.
      * rewrite sleeps_app, Hz, doubling_S. reflexivity.
      * destruct j as [|j0].
        -- exists [ESend m; EPrint (OApiCallFailed (i + 1) R e)].
           rewrite Hl. cbn [Z.of_nat Z.pow]. rewrite Z.mul_1_r. reflexivity.
        -- destruct Hl as (evs' & ->).
           exists (round ++ evs'). rewrite <- app_assoc.
           do 4 f_equal.
           rewrite (Nat2Z.inj_succ j0), Z.pow_succ_r by lia. lia.
Qed.

End FailedPasses.

(** ** The whole call *)

Section WholeCall.

Variables (chat : chat_session) (m : pystr).

Lemma invocation_of_nat h q :
  invocation chat h m (Z.of_nat q + 1) = chat (h ++ repeat m q) m.
Proof.
  unfold invocation.
  replace (Z.to_nat (Z.of_nat q + 1 - 1)) with q by lia. reflexivity.
Qed.

Lemma first_invocations_fail h k q :
  (forall j, 1 <= j <= k -> fails (invocation chat h m j)) ->
  (q < Z.to_nat k)%nat -> fails (chat (h ++ repeat m q) m).
Proof.
  intros H Hq. rewrite <- invocation_of_nat. apply H. lia.
Qed.

(** No pass at all: the function falls through to [return None]. *)
Lemma call_without_pass R D t :
  R <= 0 -> call_api_with_backoff chat m R D t = (Return None, t).
Proof.
  intros HR. unfold call_api_with_backoff.
  replace (Z.to_nat R) with 0%nat by lia. reflexivity.
Qed.

(** [k - 1] failures followed by a success. *)
Lemma call_succeeds_at R D t k r :
  1 <= k <= R -> delays_accepted D (k - 1) ->
  (forall j, 1 <= j <= k - 1 -> fails (invocation chat (sent t) m j)) ->
  invocation chat (sent t) m k = Return r ->
  exists evs,
    call_api_with_backoff chat m R D t = (Return (Some r), t ++ evs)
    /\ sent evs = repeat m (Z.to_nat k)
    /\ sleeps evs = doubling D (Z.to_nat (k - 1)).
Proof.
  intros Hk HD Hfail Hok. unfold call_api_with_backoff.
  replace (Z.to_nat R)
    with (Z.to_nat (k - 1) + S (Z.to_nat (R - k)))%nat by lia.
  destruct (backoff_loop_failed_passes chat m R (Z.to_nat (k - 1))
              (S (Z.to_nat (R - k))) 0 D t)
    as (evs & E & Hs & Hz & _).
  - intros q Hq. eapply first_invocations_fail; eauto.
  - lia.
  - intros q Hq. exact (delays_accepted_nat D (k - 1) q HD Hq).
  - rewrite E. unfold invocation in Hok.
    rewrite (backoff_loop_returns chat m R _ _ _ _ r)
      by (rewrite sent_app, Hs; exact Hok).
    exists (evs ++ [ESend m]). rewrite app_assoc.
    split; [reflexivity|]. split.
    + rewrite sent_app, Hs. cbn [sent].
      replace (Z.to_nat k) with (Z.to_nat (k - 1) + 1)%nat by lia.
      rewrite repeat_app. reflexivity.
    + rewrite sleeps_app, Hz. cbn [sleeps]. apply app_nil_r.
Qed.

(** [R] failures: the last one is re-raised. *)
Lemma call_gives_up R D t :
  1 <= R -> delays_accepted D (R - 1) ->
  (forall j, 1 <= j <= R -> fails (invocation chat (sent t) m j)) ->
  exists e evs,
    call_api_with_backoff chat m R D t = (Raise e, t ++ evs)
    /\ invocation chat (sent t) m R = Raise e
    /\ derives_Exception e = true
    /\ sent evs = repeat m (Z.to_nat R)
    /\ sleeps evs = doubling D (Z.to_nat (R - 1)).
Proof.
  intros HR HD Hfail. unfold call_api_with_backoff.
  replace (Z.to_nat R) with (Z.to_nat (R - 1) + 1)%nat by lia.
  destruct (backoff_loop_failed_passes chat m R (Z.to_nat (R - 1))
              1%nat 0 D t)
    as (evs & E & Hs & Hz & _).
  - intros q Hq. eapply first_invocations_fail; [|exact Hq].
    intros j Hj. apply Hfail. lia.
  - lia.
  - intros q Hq. exact (delays_accepted_nat D (R - 1) q HD Hq).
  - rewrite E.
    destruct (Hfail R ltac:(lia)) as (e & He & Hexc).
    exists e, (evs ++ [ESend m;
      EPrint (OApiCallFailed (0 + Z.of_nat (Z.to_nat (R - 1)) + 1) R e)]).
    unfold invocation in He.
    rewrite (backoff_loop_gives_up chat m R _ _ _ _ e)
      by (try rewrite sent_app, Hs; auto; lia).
    rewrite app_assoc. split; [reflexivity|].
    split; [exact He|]. split; [exact Hexc|]. split.
    + rewrite sent_app, Hs, repeat_app. reflexivity.
    + rewrite sleeps_app, Hz. cbn [sleeps]. apply app_nil_r.
Qed.

(** [k] failures with room for a [k]-th retry and delays that are
    accepted: the retry takes place, and the sleep that precedes it and
    the invocation that is the retry are adjacent in the trace. *)
Lemma call_retries R D t k :
  1 <= k <= R - 1 -> delays_accepted D k ->
  (forall j, 1 <= j <= k -> fails (invocation chat (sent t) m j)) ->
  exists res pre post,
    call_api_with_backoff chat m R D t =
    (res, t ++ pre ++ [ESleep (D * 2 ^ (k - 1)); ESend m] ++ post)
    /\ sent pre = repeat m (Z.to_nat k).
Proof.
  intros Hk HD Hfail. unfold call_api_with_backoff.
  replace (Z.to_nat R)
    with (S (Z.to_nat (k - 1)) + S (Z.to_nat (R - k - 1)))%nat by lia.
  destruct (backoff_loop_failed_passes chat m R (S (Z.to_nat (k - 1)))
              (S (Z.to_nat (R - k - 1))) 0 D t)
    as (evs & E & Hs & _ & (pre & ->)).
  - intros q Hq. eapply first_invocations_fail; [exact Hfail|lia].
  - lia.
  - intros q Hq. apply (delays_accepted_nat D k q HD). lia.
  - rewrite E.
    destruct (backoff_loop_starts_with_send chat m R
                (Z.to_nat (R - k - 1))
                (0 + Z.of_nat (S (Z.to_nat (k - 1))))
                (D * 2 ^ Z.of_nat (S (Z.to_nat (k - 1))))
                (t ++ pre ++ [ESleep (D * 2 ^ Z.of_nat (Z.to_nat (k - 1)))]))
      as (res & post & E').
    rewrite E'. exists res, pre, post.
    rewrite Z2Nat.id by lia.
    rewrite <- !app_assoc. cbn [app]. split; [reflexivity|].
    rewrite sent_app in Hs. cbn [sent] in Hs. rewrite app_nil_r in Hs.
    rewrite Hs. f_equal. lia.
Qed.

End WholeCall.

(** ** Concrete sessions *)

Lemma down_always_fails m : always_fails down m.
Proof. intros h. exists unavailable. split; reflexivity. Qed.

(** ** Strings *)

Ltac compare_codepoints :=
  repeat match goal with
    | |- context [N.leb ?a ?b] => destruct (N.leb_spec a b); try lia
    | |- context [N.eqb ?a ?b] => destruct (N.eqb_spec a b); try lia
    | |- context [N.ltb ?a ?b] => destruct (N.ltb_spec a b); try lia
    end.

Lemma letter_is_ascii c k :
  lowercase_letter k -> same_letter c k -> is_ascii c = true.
Proof.
  unfold lowercase_letter, same_letter, is_ascii. intros Hk Hc.
  compare_codepoints.
Qed.

Lemma letter_ascii_lower c k :
  lowercase_letter k -> same_letter c k -> ascii_lower c = k.
Proof.
  unfold lowercase_letter, same_letter, ascii_lower, in_range. intros Hk Hc.
  compare_codepoints; cbn [andb]; lia.
Qed.

Lemma letter_not_space c k :
  lowercase_letter k -> same_letter c k -> isspace c = false.
Proof.
  unfold lowercase_letter, same_letter, isspace, in_range. intros Hk Hc.
  compare_codepoints; reflexivity.
Qed.

Lemma in_any_case_lower unicode_lower kw s :
  Forall lowercase_letter kw -> in_any_case kw s ->
  lower unicode_lower s = kw /\ Forall (fun c => isspace c = false) s.
Proof.
  intros Hkw H. unfold lower.
  assert (forallb is_ascii s = true /\ map ascii_lower s = kw
          /\ Forall (fun c => isspace c = false) s) as (Ha & Hl & Hs).
  { induction H as [|c k s kw Hck H IH]; [repeat split; constructor|].
    inversion Hkw as [|? ? Hk Hkw']; subst.
    destruct (IH Hkw') as (Ha & Hl & Hs).
    cbn [forallb map]. rewrite (letter_is_ascii c k Hk Hck), Ha.
    rewrite (letter_ascii_lower c k Hk Hck), Hl.
    repeat split. constructor; [exact (letter_not_space c k Hk Hck)|exact Hs]. }
  rewrite Ha. split; assumption.
Qed.

Lemma keywords_lowercase :
  Forall lowercase_letter (str "exit") /\ Forall lowercase_letter (str "quit").
Proof.
  split; repeat constructor; discriminate.
Qed.

(** The test of line 96 accepts a keyword written in any letter case. *)
Lemma exit_keyword_recognised unicode_lower s :
  exit_keyword s ->
  member (lower unicode_lower s) [str "exit"; str "quit"] = true.
Proof.
  destruct keywords_lowercase as [He Hq].
  intros [H|H].
  - destruct (in_any_case_lower unicode_lower _ _ He H) as [-> _]. reflexivity.
  - destruct (in_any_case_lower unicode_lower _ _ Hq H) as [-> _]. reflexivity.
Qed.

Lemma exit_keyword_no_space s :
  exit_keyword s -> Forall (fun c => isspace c = false) s.
Proof.
  destruct keywords_lowercase as [He Hq].
  intros [H|H].
  - exact (proj2 (in_any_case_lower (fun x => x) _ _ He H)).
  - exact (proj2 (in_any_case_lower (fun x => x) _ _ Hq H)).
Qed.

Lemma lstrip_blank s : blank s -> lstrip s = [].
Proof.
  induction 1 as [|c s Hc _ IH]; [reflexivity|].
  cbn [lstrip]. rewrite Hc. exact IH.
Qed.

Lemma strip_blank s : blank s -> strip s = [].
Proof.
  intros H. unfold strip. rewrite (lstrip_blank s H). reflexivity.
Qed.

Lemma lstrip_no_space s :
  Forall (fun c => isspace c = false) s -> lstrip s = s.
Proof.
  intros H. destruct H as [|c s Hc _]; [reflexivity|].
  cbn [lstrip]. rewrite Hc. reflexivity.
Qed.

(** Stripping leaves a string without white space as it is. *)
Lemma strip_no_space s :
  Forall (fun c => isspace c = false) s -> strip s = s.
Proof.
  intros H. unfold strip, rstrip. rewrite (lstrip_no_space s H).
  rewrite lstrip_no_space by (apply Forall_rev; exact H).
  apply rev_involutive.
Qed.

(** ** One pass of the interaction loop *)

Section LoopPasses.

Variable unicode_lower : pystr -> pystr.
Variable textwrap_fill : pystr -> Z -> pystr.
Variable chat : chat_session.

(** What the loop does with the line it reads, in terms of the body. *)
Lemma interaction_loop_reads line rest t :
  interaction_loop unicode_lower textwrap_fill chat (line :: rest) t =
  match loop_body unicode_lower textwrap_fill chat line
          (t ++ [EPrint OPrompt]) with
  | (Return Break, t') => (Return tt, t')
  | (Return Continue, t') =>
      interaction_loop unicode_lower textwrap_fill chat rest t'
  | (Raise e, t') => (Raise e, t')
  end.
Proof.
  cbn [interaction_loop]. unfold bind at 1. unfold print at 1.
  unfold bind at 1.
  destruct (loop_body unicode_lower textwrap_fill chat line
              (t ++ [EPrint OPrompt])) as [[[|]|e] t']; reflexivity.
Qed.

Lemma loop_body_exit line t :
  exit_keyword (strip line) ->
  loop_body unicode_lower textwrap_fill chat line t =
  (Return Break, t ++ [EPrint OGoodbye]).
Proof.
  intros H. unfold loop_body.
  rewrite (exit_keyword_recognised unicode_lower _ H). reflexivity.
Qed.

Lemma loop_body_blank line t :
  blank line ->
  loop_body unicode_lower textwrap_fill chat line t =
  (Return Continue, t ++ [EPrint OPleaseEnter]).
Proof.
  intros H. unfold loop_body.
  rewrite (strip_blank line H). reflexivity.
Qed.

(** The line is sent, every attempt fails, and the handler of line 119
    takes the exception. *)
Lemma loop_body_unrecoverable line t :
  member (lower unicode_lower (strip line)) [str "exit"; str "quit"] = false ->
  truthy (strip line) = true ->
  (forall j, 1 <= j <= 5 ->
     fails (invocation chat (sent t) (strip line) j)) ->
  exists e evs,
    call_api_with_backoff chat (strip line) 5 1 t = (Raise e, t ++ evs)
    /\ invocations evs = 5
    /\ loop_body unicode_lower textwrap_fill chat line t =
       (Return Break,
        t ++ evs ++ [EPrint (OUnrecoverable e); EPrint OInterrupted]).
Proof.
  intros Hkw Hne Hfail.
  destruct (call_gives_up chat (strip line) 5 1 t) as
    (e & evs & E & _ & Hexc & Hs & _);
    [lia|apply delays_accepted_upto; [lia|discriminate]|exact Hfail|].
  exists e, evs. split; [exact E|]. split.
  - unfold invocations. rewrite Hs, repeat_length. reflexivity.
  - unfold loop_body. rewrite Hkw, Hne. cbn [negb].
    unfold try_except, bind at 1. rewrite E, Hexc.
    unfold bind, print, ret. rewrite <- !app_assoc. reflexivity.
Qed.

End LoopPasses.

(** ** Every way the retry loop can end *)

Section Outcomes.

Variables (chat : chat_session) (m : pystr) (R : Z).

(** Whatever the session does, [n] remaining passes make [q <= n]
    invocations, all with [m].  Either every pass failed and slept, and the
    loop ran out ([q] sleeps), or the [q]-th invocation ended the call after
    [q - 1] sleeps: by returning, by raising, or because it failed and the
    sleep that was to follow it was refused. *)
Lemma backoff_loop_outcome n :
  forall i d t,
  exists res evs q,
    backoff_loop chat m R n i d t = (res, t ++ evs)
    /\ sent evs = repeat m q /\ (q <= n)%nat
    /\ ((res = Return None /\ q = n /\ sleeps evs = doubling d q
         /\ (n = 0%nat \/ i + Z.of_nat n <= R - 1))
        \/ (exists q', q = S q' /\ sleeps evs = doubling d q' /\
              match res with
              | Return None => False
              | Return (Some r) => chat (sent t ++ repeat m q') m = Return r
              | Raise e =>
                  chat (sent t ++ repeat m q') m = Raise e
                  \/ (fails (chat (sent t ++ repeat m q') m)
                      /\ i + Z.of_nat q' < R - 1
                      /\ sleep_refusal (d * 2 ^ Z.of_nat q') = Some e)
              end)).
Proof.
  induction n as [|n IH]; intros i d t.
  - exists (Return None), [], 0%nat. rewrite app_nil_r.
    repeat split; [lia|]. left. repeat split. left. reflexivity.
  - destruct (chat (sent t) m) as [r|e] eqn:H.
    { exists (Return (Some r)), [ESend m], 1%nat.
      rewrite (backoff_loop_returns _ _ _ _ _ _ _ _ H).
      repeat split; [lia|]. right. exists 0%nat. repeat split.
      cbn [repeat]. rewrite app_nil_r. exact H. }
    destruct (derives_Exception e) eqn:He.
    2:{ exists (Raise e), [ESend m], 1%nat.
        rewrite (backoff_loop_not_caught _ _ _ _ _ _ _ _ H He).
        repeat split; [lia|]. right. exists 0%nat. repeat split.
        left. cbn [repeat]. rewrite app_nil_r. exact H. }
    destruct (Z.lt_ge_cases i (R - 1)) as [Hi|Hi].
    2:{ exists (Raise e), [ESend m; EPrint (OApiCallFailed (i + 1) R e)], 1%nat.
        rewrite (backoff_loop_gives_up _ _ _ _ _ _ _ _ H He Hi).
        repeat split; [lia|]. right. exists 0%nat. repeat split.
        left. cbn [repeat]. rewrite app_nil_r. exact H. }
    destruct (sleep_refusal d) as [e'|] eqn:Hd.
    { exists (Raise e'),
        [ESend m; EPrint (OApiCallFailed (i + 1) R e)], 1%nat.
      rewrite (backoff_loop_sleep_refused _ _ _ _ _ _ _ _ _ H He Hi Hd).
      repeat split; [lia|]. right. exists 0%nat. repeat split.
      right. cbn [repeat Z.of_nat Z.pow].
      rewrite app_nil_r, Z.mul_1_r, Z.add_0_r.
      split; [exists e; split; assumption|]. split; assumption. }
    rewrite (backoff_loop_retries _ _ _ _ _ _ _ _ H He Hi Hd).
    set (round := [ESend m; EPrint (OApiCallFailed (i + 1) R e); ESleep d]).
    destruct (IH (i + 1) (d * 2) (t ++ round))
      as (res & evs & q & E & Hs & Hq & Hend).
    exists res, (round ++ evs), (S q).
    rewrite E, <- app_assoc. split; [reflexivity|].
    split; [rewrite sent_app, Hs; reflexivity|]. split; [lia|].
    destruct Hend as [(-> & -> & Hz & Hn)|(q' & -> & Hz & Hres)].
    + left. repeat split.
      * rewrite sleeps_app, Hz, doubling_S. reflexivity.
      * right. lia.
    + right. exists (S q'). split; [reflexivity|]. split.
      * rewrite sleeps_app, Hz, doubling_S. reflexivity.
      * rewrite sent_app in Hres. cbn [round sent] in Hres.
        rewrite <- app_assoc in Hres. cbn [app] in Hres.
        destruct res as [[r|]|e']; [exact Hres|exact Hres|].
        destruct Hres as [Hres|(Hf & Hroom & Hrefused)]; [left; exact Hres|].
        right. split; [exact Hf|]. split; [lia|].
        rewrite Nat2Z.inj_succ, Z.pow_succ_r by lia.
        replace (d * (2 * 2 ^ Z.of_nat q')) with (d * 2 * 2 ^ Z.of_nat q')
          by lia.
        exact Hrefused.
Qed.

(** Whatever the session does, an invocation that is not the first of the
    loop comes immediately after a completed sleep, whose length is the
    loop's first delay doubled once for every earlier invocation but one. *)
Lemma backoff_loop_retry_preceded n :
  forall i d t res pre ev m' post,
    backoff_loop chat m R n i d t =
    (res, t ++ pre ++ [ev; ESend m'] ++ post) ->
    1 <= invocations pre /\ ev = ESleep (d * 2 ^ (invocations pre - 1)).
Proof.
  induction n as [|n IH]; intros i d t res pre ev m' post H.
  - cbn [backoff_loop] in H. unfold ret in H. injection H as _ H.
    rewrite <- (app_nil_r t) in H at 1. apply app_inv_head in H.
    destruct pre; discriminate H.
  - destruct (chat (sent t) m) as [r|e] eqn:Hc.
    { rewrite (backoff_loop_returns _ _ _ _ _ _ _ _ Hc) in H.
      injection H as _ H. apply app_inv_head in H.
      destruct pre as [|a [|b pre]]; discriminate H. }
    destruct (derives_Exception e) eqn:He.
    2:{ rewrite (backoff_loop_not_caught _ _ _ _ _ _ _ _ Hc He) in H.
        injection H as _ H. apply app_inv_head in H.
        destruct pre as [|a [|b pre]]; discriminate H. }
    destruct (Z.lt_ge_cases i (R - 1)) as [Hi|Hi].
    2:{ rewrite (backoff_loop_gives_up _ _ _ _ _ _ _ _ Hc He Hi) in H.
        injection H as _ H. apply app_inv_head in H.
        destruct pre as [|a [|b [|c pre]]]; discriminate H. }
    destruct (sleep_refusal d) as [e'|] eqn:Hd.
    { rewrite (backoff_loop_sleep_refused _ _ _ _ _ _ _ _ _ Hc He Hi Hd) in H.
      injection H as _ H. apply app_inv_head in H.
      destruct pre as [|a [|b [|c pre]]]; discriminate H. }
    rewrite (backoff_loop_retries _ _ _ _ _ _ _ _ Hc He Hi Hd) in H.
    set (round := [ESend m; EPrint (OApiCallFailed (i + 1) R e); ESleep d])
      in H.
    destruct (backoff_loop_outcome n (i + 1) (d * 2) (t ++ round))
      as (res' & evs & q & E & _).
    rewrite E in H. injection H as _ H.
    rewrite <- app_assoc in H. apply app_inv_head in H.
    destruct pre as [|a [|b [|c pre]]]; cbn [round app] in H;
      try discriminate H.
    + injection H as Ha Hb Hev _. subst a b ev.
      split; [cbn; lia|]. cbn. f_equal. lia.
    + injection H as Ha Hb Hcc Hevs. subst a b c evs.
      destruct (IH (i + 1) (d * 2) (t ++ round) res' pre ev m' post E)
        as [Hk Hev].
      assert (Hinv : invocations
                (ESend m :: EPrint (OApiCallFailed (i + 1) R e)
                   :: ESleep d :: pre) = 1 + invocations pre).
      { unfold invocations. cbn [sent List.length]. lia. }
      rewrite Hinv. split; [lia|]. rewrite Hev. f_equal.
      replace (1 + invocations pre - 1) with (Z.succ (invocations pre - 1))
        by lia.
      rewrite Z.pow_succ_r by lia. lia.
Qed.

End Outcomes.

(** The same for a whole call: [q] invocations, [q - 1] sleeps. *)
Lemma call_outcome chat m R D t :
  exists res evs q,
    call_api_with_backoff chat m R D t = (res, t ++ evs)
    /\ sent evs = repeat m q
    /\ Z.of_nat q <= Z.max 0 R
    /\ sleeps evs = doubling D (q - 1)
    /\ match res with
       | Return None => R <= 0 /\ q = 0%nat
       | Return (Some r) =>
           (1 <= q)%nat /\ invocation chat (sent t) m (Z.of_nat q) = Return r
       | Raise e =>
           (1 <= q)%nat
           /\ (invocation chat (sent t) m (Z.of_nat q) = Raise e
               \/ (fails (invocation chat (sent t) m (Z.of_nat q))
                   /\ Z.of_nat q <= R - 1
                   /\ sleep_refusal (D * 2 ^ (Z.of_nat q - 1)) = Some e))
       end.
Proof.
  unfold call_api_with_backoff.
  destruct (backoff_loop_outcome chat m R (Z.to_nat R) 0 D t)
    as (res & evs & q & E & Hs & Hq & Hend).
  exists res, evs, q. split; [exact E|]. split; [exact Hs|].
  split; [lia|].
  destruct Hend as [(-> & -> & Hz & Hn)|(q' & -> & Hz & Hres)].
  - assert (HR : Z.to_nat R = 0%nat) by lia.
    rewrite HR in Hz |- *. split; [exact Hz|]. split; [lia|reflexivity].
  - replace (S q' - 1)%nat with q' by lia. split; [exact Hz|].
    unfold invocation.
    replace (Z.to_nat (Z.of_nat (S q') - 1)) with q' by lia.
    destruct res as [[r|]|e]; [split; [lia|exact Hres]|contradiction|].
    split; [lia|].
    destruct Hres as [Hres|(Hf & Hroom & Hrefused)]; [left; exact Hres|].
    right. split; [exact Hf|]. split; [lia|].
    replace (Z.of_nat (S q') - 1) with (Z.of_nat q') by lia. exact Hrefused.
Qed.

(** ** Every way a pass of the interaction loop can end *)

Section LoopOutcomes.

Variable unicode_lower : pystr -> pystr.
Variable textwrap_fill : pystr -> Z -> pystr.
Variable chat : chat_session.

(** Showing a reply only prints, one line at most. *)
Lemma show_response_outcome resp t :
  exists res l,
    show_response textwrap_fill resp t = (res, t ++ l)
    /\ sent l = [] /\ sleeps l = [].
Proof.
  unfold show_response, print, raise.
  destruct resp as [r|]; [|eauto].
  destruct (resp_truthy r); [|eauto].
  destruct (resp_text r) as [text|e].
  - destruct (truthy text); eauto.
  - exists (Raise e), []. rewrite app_nil_r. auto.
Qed.

(** The first invocation returns: the call is over after it. *)
Lemma call_returns_at_once m R D t r :
  1 <= R -> chat (sent t) m = Return r ->
  call_api_with_backoff chat m R D t = (Return (Some r), t ++ [ESend m]).
Proof.
  intros HR H. unfold call_api_with_backoff.
  replace (Z.to_nat R) with (S (Z.to_nat (R - 1))) by lia.
  apply backoff_loop_returns. exact H.
Qed.

(** A pass sends nothing but the stripped line, non-empty, five times at
    most, and lets no exception deriving from [Exception] through. *)
Lemma loop_body_outcome line t :
  exists res evs,
    loop_body unicode_lower textwrap_fill chat line t = (res, t ++ evs)
    /\ invocations evs <= 5
    /\ (forall x, In x (sent evs) -> x = strip line /\ x <> [])
    /\ (forall e, res = Raise e -> derives_Exception e = false).
Proof.
  unfold loop_body.
  destruct (member _ _).
  { exists (Return Break), [EPrint OGoodbye]. repeat split; try easy. }
  destruct (truthy (strip line)) eqn:Hne; cbn [negb].
  2:{ exists (Return Continue), [EPrint OPleaseEnter]. repeat split; try easy. }
  assert (Hnonempty : strip line <> []) by (intros Heq; rewrite Heq in Hne; discriminate).
  destruct (call_outcome chat (strip line) 5 1 t)
    as (res & evs & q & E & Hs & Hq & _ & _).
  assert (Hinv : forall l, sent l = [] -> invocations (evs ++ l) <= 5).
  { intros l Hl. unfold invocations.
    rewrite sent_app, Hs, Hl, app_nil_r, repeat_length. lia. }
  assert (Hsent : forall l x, sent l = [] -> In x (sent (evs ++ l)) ->
                    x = strip line /\ x <> []).
  { intros l x Hl Hx. rewrite sent_app, Hs, Hl, app_nil_r in Hx.
    apply repeat_spec in Hx. subst x. split; [reflexivity|exact Hnonempty]. }
  unfold try_except. unfold bind at 1. rewrite E.
  destruct res as [resp|e].
  - unfold bind.
    destruct (show_response_outcome resp (t ++ evs)) as (r' & l & E' & Hl & _).
    rewrite E'. destruct r' as [[]|e'].
    + exists (Return Continue), (evs ++ l). unfold ret. rewrite app_assoc.
      split; [reflexivity|]. split; [auto|]. split; [eauto|discriminate].
    + destruct (derives_Exception e') eqn:He'.
      * exists (Return Break),
          (evs ++ l ++ [EPrint (OUnrecoverable e'); EPrint OInterrupted]).
        unfold print, ret. rewrite <- !app_assoc.
        split; [reflexivity|].
        assert (sent (l ++ [EPrint (OUnrecoverable e'); EPrint OInterrupted])
                = []) by (rewrite sent_app, Hl; reflexivity).
        split; [auto|]. split; [eauto|discriminate].
      * exists (Raise e'), (evs ++ l). rewrite app_assoc.
        split; [reflexivity|]. split; [auto|]. split; [eauto|].
        intros e0 Heq. injection Heq as <-. exact He'.
  - destruct (derives_Exception e) eqn:He.
    + exists (Return Break),
        (evs ++ [EPrint (OUnrecoverable e); EPrint OInterrupted]).
      unfold bind, print, ret. rewrite <- !app_assoc.
      split; [reflexivity|]. split; [apply Hinv; reflexivity|].
      split; [|discriminate].
      intros x Hx. apply (Hsent _ x) in Hx; [exact Hx|reflexivity].
    + exists (Raise e), (evs ++ []).
      split; [rewrite app_nil_r; reflexivity|].
      split; [apply Hinv; reflexivity|]. split.
      * intros x Hx. apply (Hsent _ x) in Hx; [exact Hx|reflexivity].
      * intros e0 Heq. injection Heq as <-. exact He.
Qed.

(** The same for the loop over the lines of standard input. *)
Lemma interaction_loop_outcome stdin :
  forall t,
  exists res evs,
    interaction_loop unicode_lower textwrap_fill chat stdin t = (res, t ++ evs)
    /\ invocations evs <= 5 * Z.of_nat (List.length stdin)
    /\ (forall x, In x (sent evs) ->
          x <> [] /\ exists line, In line stdin /\ x = strip line)
    /\ (forall e, res = Raise e ->
          e = EOFError \/ derives_Exception e = false).
Proof.
  induction stdin as [|line rest IH]; intros t.
  - exists (Raise EOFError), [EPrint OPrompt]. repeat split; try easy.
    intros e Heq. injection Heq as <-. left. reflexivity.
  - rewrite interaction_loop_reads.
    destruct (loop_body_outcome line (t ++ [EPrint OPrompt]))
      as (res & evs & E & Hn & Hsent & Hexc).
    rewrite E.
    assert (Hn0 : invocations ([EPrint OPrompt] ++ evs) <= 5).
    { rewrite invocations_app.
      change (invocations [EPrint OPrompt]) with 0. lia. }
    assert (Hn' : invocations ([EPrint OPrompt] ++ evs)
                  <= 5 * Z.of_nat (List.length (line :: rest))).
    { cbn [List.length]. lia. }
    assert (Hsent' : forall x, In x (sent ([EPrint OPrompt] ++ evs)) ->
              x <> [] /\ exists l, In l (line :: rest) /\ x = strip l).
    { intros x Hx. destruct (Hsent x Hx) as [-> Hne].
      split; [exact Hne|]. exists line. split; [left; reflexivity|reflexivity]. }
    destruct res as [[|]|e].
    + exists (Return tt), ([EPrint OPrompt] ++ evs). rewrite <- app_assoc.
      split; [reflexivity|]. split; [exact Hn'|]. split; [exact Hsent'|].
      discriminate.
    + destruct (IH ((t ++ [EPrint OPrompt]) ++ evs))
        as (res' & evs' & E' & Hn2 & Hsent2 & Hexc2).
      exists res', ([EPrint OPrompt] ++ evs ++ evs').
      rewrite E', <- !app_assoc. split; [reflexivity|]. split; [|split].
      * rewrite (app_assoc [EPrint OPrompt]), invocations_app.
        cbn [List.length]. lia.
      * intros x Hx. rewrite (app_assoc [EPrint OPrompt]), sent_app in Hx.
        apply in_app_or in Hx. destruct Hx as [Hx|Hx].
        -- exact (Hsent' x Hx).
        -- destruct (Hsent2 x Hx) as (Hne & l & Hl & ->).
           split; [exact Hne|]. exists l. split; [right; exact Hl|reflexivity].
      * exact Hexc2.
    + exists (Raise e), ([EPrint OPrompt] ++ evs). rewrite <- app_assoc.
      split; [reflexivity|]. split; [exact Hn'|]. split; [exact Hsent'|].
      intros e0 Heq. injection Heq as <-. right. apply Hexc. reflexivity.
Qed.

(** The loop begins by writing the prompt, whatever it is given to read. *)
Lemma interaction_loop_prompts_first stdin t :
  exists res post,
    interaction_loop unicode_lower textwrap_fill chat stdin t =
    (res, t ++ EPrint OPrompt :: post).
Proof.
  destruct stdin as [|line rest].
  - exists (Raise EOFError), []. reflexivity.
  - rewrite interaction_loop_reads.
    destruct (loop_body_outcome line (t ++ [EPrint OPrompt]))
      as (res & evs & E & _).
    rewrite E. destruct res as [[|]|e].
    + exists (Return tt), evs. rewrite <- app_assoc. reflexivity.
    + destruct (interaction_loop_outcome rest ((t ++ [EPrint OPrompt]) ++ evs))
        as (res' & evs' & E' & _).
      rewrite E'. exists res', (evs ++ evs').
      rewrite <- !app_assoc. reflexivity.
    + exists (Raise e), evs. rewrite <- app_assoc. reflexivity.
Qed.

End LoopOutcomes.

(** ** Boundaries of the statements below

    The statements about completed retries are for delays [time.sleep]
    accepts and read "the operation fails" as "it raises an exception
    deriving from [Exception]".  The facts below show what the program
    does outside these conditions. *)

(** A negative delay: the first sleep is refused, and the [ValueError] of
    [time.sleep] leaves the function after a single invocation. *)
Lemma negative_delay_stops_after_one_invocation m :
  call_api_with_backoff down m 2 (-1) [] =
  (Raise ValueError_sleep, [ESend m; EPrint (OApiCallFailed 1 2 unavailable)]).
Proof. reflexivity. Qed.

(** A delay beyond the limit: the first sleep is refused, and the
    [OverflowError] of [time.sleep] leaves the function after a single
    invocation. *)
Lemma overlong_delay_stops_after_one_invocation m :
  call_api_with_backoff down m 2 (10 ^ 10) [] =
  (Raise OverflowError_sleep,
   [ESend m; EPrint (OApiCallFailed 1 2 unavailable)]).
Proof. reflexivity. Qed.

(** An exception that does not derive from [Exception] is never retried. *)
Lemma base_exception_is_not_retried m h :
  let interrupt := Exn false "KeyboardInterrupt" in
  call_api_with_backoff (fun _ _ => Raise interrupt) m 5 1 h =
  (Raise interrupt, h ++ [ESend m]).
Proof. reflexivity. Qed.

(** ** The backoff-retrying call wrapper *)




(** C2.  For [1 <= k <= max_retries - 1], whenever a call makes a [k]-th
    retry (a [k+1]-th invocation), the event immediately before it is a
    completed sleep of exactly [initial_delay * 2^(k-1)]: this holds for
    every session and every [initial_delay]. *)
Theorem backoff_delay_before_retry chat m R D t k res pre ev post :
  1 <= k <= R - 1 ->
  call_api_with_backoff chat m R D t =
  (res, t ++ pre ++ [ev; ESend m] ++ post) ->
  invocations pre = k ->
  ev = ESleep (D * 2 ^ (k - 1)).
Proof.
  intros _ Hcall Hk. unfold call_api_with_backoff in Hcall.
  destruct (backoff_loop_retry_preceded chat m R _ _ _ _ _ _ _ _ _ Hcall)
    as [_ Hev].
  rewrite Hk in Hev. exact Hev.
Qed.

Lemma backoff_delay_before_retry_witness :
  ESleep 6 = ESleep (3 * 2 ^ (2 - 1)).
Proof.
  apply (backoff_delay_before_retry down (str "hi") 4 3 [] 2
           (Raise unavailable)
           [ESend (str "hi"); EPrint (OApiCallFailed 1 4 unavailable);
            ESleep 3;
            ESend (str "hi"); EPrint (OApiCallFailed 2 4 unavailable)]
           (ESleep 6)
           [EPrint (OApiCallFailed 3 4 unavailable); ESleep 12;
            ESend (str "hi"); EPrint (OApiCallFailed 4 4 unavailable)]).
  - lia.
  - reflexivity.
  - reflexivity.
Defined.

(** C3.  For [max_retries >= 1] and an operation that succeeds on its first
    invocation, the call invokes it once, does not sleep, and returns the
    result of that invocation. *)
Theorem backoff_first_success chat m R D t r :
  1 <= R -> invocation chat (sent t) m 1 = Return r ->
  exists evs,
    call_api_with_backoff chat m R D t = (Return (Some r), t ++ evs)
    /\ invocations evs = 1
    /\ sleeps evs = [].
Proof.
  intros HR Hok. exists [ESend m]. repeat split.
  unfold call_api_with_backoff.
  replace (Z.to_nat R) with (S (Z.to_nat (R - 1))) by lia.
  apply backoff_loop_returns.
  unfold invocation in Hok. cbn [Z.sub Z.opp Z.add Z.pos_sub Z.to_nat repeat] in Hok.
  rewrite app_nil_r in Hok. exact Hok.
Qed.

Lemma backoff_first_success_witness :
  exists evs,
    call_api_with_backoff (flaky 0) (str "hi") 5 1 [] =
    (Return (Some hello), [] ++ evs)
    /\ invocations evs = 1
    /\ sleeps evs = [].
Proof.
  apply (backoff_first_success (flaky 0) (str "hi") 5 1 [] hello).
  - lia.
  - reflexivity.
Defined.

(** C4.  With [max_retries] zero or negative the range is empty: the
    function returns [None] without invoking the operation and without
    raising. *)
Theorem backoff_without_attempt chat m D t :
  call_api_with_backoff chat m 0 D t = (Return None, t)
  /\ call_api_with_backoff chat m (-1) D t = (Return None, t).
Proof.
  split; apply call_without_pass; lia.
Qed.

(** C8.  With [initial_delay = 1] and [max_retries = 3], an operation that
    fails twice and then succeeds makes the call sleep 1 and then 2, three
    time units in all, and return the result of the third invocation. *)
Theorem backoff_scenario_two_failures chat m t r :
  fails (invocation chat (sent t) m 1) ->
  fails (invocation chat (sent t) m 2) ->
  invocation chat (sent t) m 3 = Return r ->
  exists evs,
    call_api_with_backoff chat m 3 1 t = (Return (Some r), t ++ evs)
    /\ invocations evs = 3
    /\ sleeps evs = [1; 2]
    /\ total_sleep evs = 1 + 2.
Proof.
  intros H1 H2 H3.
  destruct (call_succeeds_at chat m 3 1 t 3 r) as (evs & E & Hs & Hz);
    [lia|apply delays_accepted_upto; [lia|discriminate]| |exact H3|].
  - intros j Hj. assert (j = 1 \/ j = 2) as [->| ->] by lia; assumption.
  - exists evs. split; [exact E|].
    unfold invocations, total_sleep. rewrite Hs, Hz. repeat split.
Qed.

Lemma backoff_scenario_two_failures_witness :
  exists evs,
    call_api_with_backoff (flaky 2) (str "hi") 3 1 [] =
    (Return (Some hello), [] ++ evs)
    /\ invocations evs = 3
    /\ sleeps evs = [1; 2]
    /\ total_sleep evs = 1 + 2.
Proof.
  apply (backoff_scenario_two_failures (flaky 2) (str "hi") [] hello).
  - exists unavailable. split; reflexivity.
  - exists unavailable. split; reflexivity.
  - reflexivity.
Defined.




(** ** The interaction loop *)

Section Loop.

Variable unicode_lower : pystr -> pystr.
Variable textwrap_fill : pystr -> Z -> pystr.
Variable chat : chat_session.

(** C5.  A line that is empty or white space only is answered locally: the
    pass prints the request to enter something, does not invoke the remote
    operation, and the loop goes on with the lines that remain, the next
    thing it does being to write the prompt again. *)
Theorem loop_blank_line_not_sent line rest t :
  blank line ->
  loop_body unicode_lower textwrap_fill chat line t =
  (Return Continue, t ++ [EPrint OPleaseEnter])
  /\ interaction_loop unicode_lower textwrap_fill chat (line :: rest) t =
     interaction_loop unicode_lower textwrap_fill chat rest
       (t ++ [EPrint OPrompt; EPrint OPleaseEnter])
  /\ exists res post,
       interaction_loop unicode_lower textwrap_fill chat (line :: rest) t =
       (res,
        t ++ [EPrint OPrompt; EPrint OPleaseEnter; EPrint OPrompt] ++ post).
Proof.
  intros H. split; [apply loop_body_blank; exact H|].
  assert (Hloop :
    interaction_loop unicode_lower textwrap_fill chat (line :: rest) t =
    interaction_loop unicode_lower textwrap_fill chat rest
      (t ++ [EPrint OPrompt; EPrint OPleaseEnter])).
  { rewrite interaction_loop_reads, (loop_body_blank _ _ _ _ _ H).
    rewrite <- app_assoc. reflexivity. }
  split; [exact Hloop|].
  destruct (interaction_loop_prompts_first unicode_lower textwrap_fill chat
              rest (t ++ [EPrint OPrompt; EPrint OPleaseEnter]))
    as (res & post & E).
  exists res, post. rewrite Hloop, E, <- app_assoc. reflexivity.
Qed.

(** C6.  A line that is exactly "exit" or "quit", in any letter case, ends
    the loop: the farewell is printed, the remote operation is not invoked
    and no further line is read. *)
Theorem loop_exit_keyword_ends line rest t :
  exit_keyword line ->
  interaction_loop unicode_lower textwrap_fill chat (line :: rest) t =
  (Return tt, t ++ [EPrint OPrompt; EPrint OGoodbye]).
Proof.
  intros H. rewrite interaction_loop_reads, loop_body_exit.
  - rewrite <- app_assoc. reflexivity.
  - rewrite strip_no_space; [exact H|].
    apply exit_keyword_no_space. exact H.
Qed.

(** C10.  The keyword test is made on the stripped line: a line whose
    stripped form is "exit" or "quit" in any letter case ends the loop
    without an invocation of the remote operation. *)
Theorem loop_stripped_exit_keyword_ends line rest t :
  exit_keyword (strip line) ->
  interaction_loop unicode_lower textwrap_fill chat (line :: rest) t =
  (Return tt, t ++ [EPrint OPrompt; EPrint OGoodbye]).
Proof.
  intros H. rewrite interaction_loop_reads, (loop_body_exit _ _ _ _ _ H).
  rewrite <- app_assoc. reflexivity.
Qed.


End Loop.

Lemma loop_blank_line_not_sent_witness :
  let line := str "   " in
  loop_body (fun s => s) (fun s _ => s) down line [] =
  (Return Continue, [] ++ [EPrint OPleaseEnter])
  /\ interaction_loop (fun s => s) (fun s _ => s) down [line; str "exit"] [] =
     interaction_loop (fun s => s) (fun s _ => s) down [str "exit"]
       ([] ++ [EPrint OPrompt; EPrint OPleaseEnter])
  /\ exists res post,
       interaction_loop (fun s => s) (fun s _ => s) down
         [line; str "exit"] [] =
       (res,
        [] ++ [EPrint OPrompt; EPrint OPleaseEnter; EPrint OPrompt] ++ post).
Proof.
  apply (loop_blank_line_not_sent (fun s => s) (fun s _ => s) down
           (str "   ") [str "exit"] []).
  repeat constructor.
Defined.

Lemma loop_exit_keyword_ends_witness :
  interaction_loop (fun s => s) (fun s _ => s) down
    [str "QuIt"; str "never read"] [] =
  (Return tt, [] ++ [EPrint OPrompt; EPrint OGoodbye]).
Proof.
  apply (loop_exit_keyword_ends (fun s => s) (fun s _ => s) down
           (str "QuIt") [str "never read"] []).
  right. repeat constructor; (left; reflexivity) || (right; reflexivity).
Defined.

Lemma loop_stripped_exit_keyword_ends_witness :
  interaction_loop (fun s => s) (fun s _ => s) down
    [str "  Exit  "; str "never read"] [] =
  (Return tt, [] ++ [EPrint OPrompt; EPrint OGoodbye]).
Proof.
  apply (loop_stripped_exit_keyword_ends (fun s => s) (fun s _ => s) down
           (str "  Exit  ") [str "never read"] []).
  left. repeat constructor; (left; reflexivity) || (right; reflexivity).
Defined.


(** * Further properties of the program *)

(** ** call_api_with_backoff under an arbitrary session *)

(** X1.  Whatever the session does, a call keeps the earlier trace, makes
    at most [max_retries] invocations (none when [max_retries] is not
    positive), and every invocation passes the message it was given. *)
Theorem backoff_attempts_bounded chat m R D t :
  exists res evs,
    call_api_with_backoff chat m R D t = (res, t ++ evs)
    /\ 0 <= invocations evs <= Z.max 0 R
    /\ (forall x, In x (sent evs) -> x = m).
Proof.
  destruct (call_outcome chat m R D t) as (res & evs & q & E & Hs & Hq & _).
  exists res, evs. split; [exact E|]. split.
  - unfold invocations. rewrite Hs, repeat_length. lia.
  - intros x Hx. rewrite Hs in Hx. exact (repeat_spec _ _ _ Hx).
Qed.

(** X2.  Whatever the session does, the sleeps of a call are
    [initial_delay], [2 * initial_delay], [4 * initial_delay], ... in this
    order, one fewer than the invocations made. *)
Theorem backoff_sleeps_double chat m R D t :
  exists res evs,
    call_api_with_backoff chat m R D t = (res, t ++ evs)
    /\ sleeps evs = doubling D (Z.to_nat (invocations evs - 1)).
Proof.
  destruct (call_outcome chat m R D t) as (res & evs & q & E & Hs & _ & Hz & _).
  exists res, evs. split; [exact E|].
  unfold invocations. rewrite Hs, repeat_length, Hz. f_equal. lia.
Qed.

(** X3.  The call returns [None] exactly when [max_retries] is not
    positive: with at least one pass the fall-through of line 71 is never
    reached. *)
Theorem backoff_none_iff_no_pass chat m R D t :
  fst (call_api_with_backoff chat m R D t) = Return None <-> R <= 0.
Proof.
  split.
  - destruct (call_outcome chat m R D t) as (res & evs & q & E & _ & _ & _ & H).
    rewrite E. cbn [fst]. intros ->. exact (proj1 H).
  - intros HR. rewrite call_without_pass by exact HR. reflexivity.
Qed.

(** X4.  A reply the call returns is the reply of the last invocation it
    made, the [k]-th for some [1 <= k <= max_retries]. *)
Theorem backoff_returns_last_reply chat m R D t r t' :
  call_api_with_backoff chat m R D t = (Return (Some r), t') ->
  exists evs k,
    t' = t ++ evs /\ invocations evs = k /\ 1 <= k <= R
    /\ invocation chat (sent t) m k = Return r.
Proof.
  intros Hcall.
  destruct (call_outcome chat m R D t)
    as (res & evs & q & E & Hs & Hq & _ & H).
  rewrite E in Hcall. injection Hcall as -> <-.
  destruct H as [Hq1 Hr].
  exists evs, (Z.of_nat q). split; [reflexivity|]. split.
  - unfold invocations. rewrite Hs, repeat_length. reflexivity.
  - split; [lia|exact Hr].
Qed.

Lemma backoff_returns_last_reply_witness :
  exists evs k,
    [ESend (str "hi"); EPrint (OApiCallFailed 1 3 unavailable); ESleep 1;
     ESend (str "hi")] = [] ++ evs
    /\ invocations evs = k /\ 1 <= k <= 3
    /\ invocation (flaky 1) (sent []) (str "hi") k = Return hello.
Proof.
  apply (backoff_returns_last_reply (flaky 1) (str "hi") 3 1 [] hello).
  reflexivity.
Defined.





(** X7.  With room for a retry and an [initial_delay] that [time.sleep]
    refuses, a first invocation that fails is reported and the exception
    of [time.sleep] leaves the call in place of the operation's failure,
    after a single invocation: [ValueError] for a delay from -9223372036
    up to -1, [OverflowError] for one below -9223372036 or above
    9223372036. *)
Theorem backoff_refused_delay_masks_failure chat m R D t e :
  2 <= R -> D < 0 \/ sleep_limit < D ->
  invocation chat (sent t) m 1 = Raise e -> derives_Exception e = true ->
  call_api_with_backoff chat m R D t =
  (Raise (if ((D <? - sleep_limit) || (sleep_limit <? D))%bool
          then OverflowError_sleep else ValueError_sleep),
   t ++ [ESend m; EPrint (OApiCallFailed 1 R e)]).
Proof.
  intros HR HD H1 He. unfold call_api_with_backoff.
  replace (Z.to_nat R) with (S (Z.to_nat (R - 1))) by lia.
  unfold invocation in H1. cbn [Z.sub Z.opp Z.add Z.pos_sub Z.to_nat repeat] in H1.
  rewrite app_nil_r in H1.
  apply (backoff_loop_sleep_refused chat m R _ 0 D t e _ H1 He); [lia|].
  unfold sleep_refusal.
  destruct ((D <? - sleep_limit) || (sleep_limit <? D))%bool eqn:Hout;
    [reflexivity|].
  apply orb_false_elim in Hout. destruct Hout as [_ Hhigh].
  apply Z.ltb_ge in Hhigh.
  destruct (Z.ltb_spec D 0); [reflexivity|lia].
Qed.

Lemma backoff_refused_delay_masks_failure_witness :
  call_api_with_backoff down (str "hi") 5 (-2) [] =
  (Raise (if ((-2 <? - sleep_limit) || (sleep_limit <? -2))%bool
          then OverflowError_sleep else ValueError_sleep),
   [] ++ [ESend (str "hi"); EPrint (OApiCallFailed 1 5 unavailable)]).
Proof.
  apply (backoff_refused_delay_masks_failure down (str "hi") 5 (-2) []
           unavailable).
  - lia.
  - left. lia.
  - reflexivity.
  - reflexivity.
Defined.

(** ** The interaction loop under an arbitrary session *)

Section LoopProperties.

Variable unicode_lower : pystr -> pystr.
Variable textwrap_fill : pystr -> Z -> pystr.
Variable chat : chat_session.

(** A line that is sent and answered at the first invocation: what is left
    of the pass is the showing of the reply. *)
Lemma loop_body_replied line t r :
  member (lower unicode_lower (strip line)) [str "exit"; str "quit"] = false ->
  truthy (strip line) = true ->
  chat (sent t) (strip line) = Return r ->
  loop_body unicode_lower textwrap_fill chat line t =
  match show_response textwrap_fill (Some r) (t ++ [ESend (strip line)]) with
  | (Return _, t') => (Return Continue, t')
  | (Raise e, t') =>
      if derives_Exception e
      then (Return Break,
            t' ++ [EPrint (OUnrecoverable e); EPrint OInterrupted])
      else (Raise e, t')
  end.
Proof.
  intros Hkw Hne Hr. unfold loop_body. rewrite Hkw, Hne. cbn [negb].
  unfold try_except. unfold bind at 1.
  rewrite (call_returns_at_once chat (strip line) 5 1 t r) by (lia || exact Hr).
  unfold bind at 1.
  destruct (show_response textwrap_fill (Some r) (t ++ [ESend (strip line)]))
    as [[[]|e] t']; [reflexivity|].
  destruct (derives_Exception e); [|reflexivity].
  unfold bind, print, ret. rewrite <- !app_assoc. reflexivity.
Qed.

Lemma sent_after_prompt t : sent (t ++ [EPrint OPrompt]) = sent t.
Proof. rewrite sent_app. apply app_nil_r. Qed.

(** With only blank lines to read, the loop answers each locally and ends
    when [input] finds the end of standard input. *)
Lemma interaction_loop_blank_input stdin :
  Forall blank stdin ->
  forall t,
    interaction_loop unicode_lower textwrap_fill chat stdin t =
    (Raise EOFError,
     t ++ flat_map (fun _ => [EPrint OPrompt; EPrint OPleaseEnter]) stdin
       ++ [EPrint OPrompt]).
Proof.
  induction 1 as [|line rest Hline _ IH]; intros t; [reflexivity|].
  rewrite interaction_loop_reads, (loop_body_blank _ _ _ _ _ Hline), IH.
  cbn [flat_map]. rewrite <- !app_assoc. reflexivity.
Qed.

(** X8.  The loop makes at most five invocations of the remote operation
    for each line it is given, whatever the session does. *)
Theorem loop_invocations_bounded stdin t :
  exists res evs,
    interaction_loop unicode_lower textwrap_fill chat stdin t = (res, t ++ evs)
    /\ invocations evs <= 5 * Z.of_nat (List.length stdin).
Proof.
  destruct (interaction_loop_outcome unicode_lower textwrap_fill chat stdin t)
    as (res & evs & E & Hn & _).
  eauto.
Qed.

(** X9.  Every message the loop hands to the remote operation is the
    stripped form of a line it read, and is not empty. *)
Theorem loop_sends_stripped_lines stdin t :
  exists res evs,
    interaction_loop unicode_lower textwrap_fill chat stdin t = (res, t ++ evs)
    /\ forall x, In x (sent evs) ->
         x <> [] /\ exists line, In line stdin /\ x = strip line.
Proof.
  destruct (interaction_loop_outcome unicode_lower textwrap_fill chat stdin t)
    as (res & evs & E & _ & Hsent & _).
  eauto.
Qed.

(** X11.  When standard input holds blank lines only (or nothing) and
    ends, [run_chatbot] prints the welcome banner, answers each line
    locally, and is left by the [EOFError] of [input]: nothing is sent and
    the closing banner is not printed. *)
Theorem run_chatbot_end_of_input stdin t :
  Forall blank stdin ->
  run_chatbot unicode_lower textwrap_fill chat stdin t =
  (Raise EOFError,
   t ++ [EPrint OWelcomeBanner]
     ++ flat_map (fun _ => [EPrint OPrompt; EPrint OPleaseEnter]) stdin
     ++ [EPrint OPrompt]).
Proof.
  intros H. unfold run_chatbot. unfold bind at 1. unfold print at 1.
  unfold bind. rewrite (interaction_loop_blank_input stdin H).
  rewrite <- !app_assoc. reflexivity.
Qed.

(** X13.  A reply that is false as a truth value, or whose text is empty,
    is not fatal: after the single invocation the loop prints that it got
    no clear response and goes on with the lines that remain, the next
    thing it does being to write the prompt again. *)
Theorem loop_no_clear_response line rest t r :
  member (lower unicode_lower (strip line)) [str "exit"; str "quit"] = false ->
  truthy (strip line) = true ->
  chat (sent t) (strip line) = Return r ->
  resp_truthy r = false \/ resp_text r = Return [] ->
  interaction_loop unicode_lower textwrap_fill chat (line :: rest) t =
  interaction_loop unicode_lower textwrap_fill chat rest
    (t ++ [EPrint OPrompt; ESend (strip line); EPrint ONoClearResponse])
  /\ exists res post,
       interaction_loop unicode_lower textwrap_fill chat (line :: rest) t =
       (res,
        t ++ [EPrint OPrompt; ESend (strip line); EPrint ONoClearResponse;
              EPrint OPrompt] ++ post).
Proof.
  intros Hkw Hne Hr Hempty.
  assert (Hloop :
    interaction_loop unicode_lower textwrap_fill chat (line :: rest) t =
    interaction_loop unicode_lower textwrap_fill chat rest
      (t ++ [EPrint OPrompt; ESend (strip line); EPrint ONoClearResponse])).
  { rewrite interaction_loop_reads.
    rewrite (loop_body_replied line _ r Hkw Hne)
      by (rewrite sent_after_prompt; exact Hr).
    unfold show_response, print.
    destruct (resp_truthy r) eqn:Ht.
    - destruct Hempty as [Hf| ->]; [discriminate|].
      cbn [truthy]. rewrite <- !app_assoc. reflexivity.
    - rewrite <- !app_assoc. reflexivity. }
  split; [exact Hloop|].
  destruct (interaction_loop_prompts_first unicode_lower textwrap_fill chat
              rest
              (t ++ [EPrint OPrompt; ESend (strip line);
                     EPrint ONoClearResponse]))
    as (res & post & E).
  exists res, post. rewrite Hloop, E, <- app_assoc. reflexivity.
Qed.

(** X14.  A reply whose text cannot be read (the [text] attribute raises
    an exception deriving from [Exception]) ends the loop like an
    unrecoverable API failure; the message is not sent again. *)
Theorem loop_unreadable_reply_ends line rest t r e :
  member (lower unicode_lower (strip line)) [str "exit"; str "quit"] = false ->
  truthy (strip line) = true ->
  chat (sent t) (strip line) = Return r ->
  resp_truthy r = true -> resp_text r = Raise e ->
  derives_Exception e = true ->
  interaction_loop unicode_lower textwrap_fill chat (line :: rest) t =
  (Return tt,
   t ++ [EPrint OPrompt; ESend (strip line);
         EPrint (OUnrecoverable e); EPrint OInterrupted]).
Proof.
  intros Hkw Hne Hr Ht Htext He.
  rewrite interaction_loop_reads.
  rewrite (loop_body_replied line _ r Hkw Hne)
    by (rewrite sent_after_prompt; exact Hr).
  unfold show_response, raise. rewrite Ht, Htext, He.
  rewrite <- !app_assoc. reflexivity.
Qed.

(** X15.  Once the loop has ended on an exit command or after an
    unrecoverable error, what follows on standard input is not read: more
    lines after the ones consumed change nothing. *)
Theorem loop_ignores_input_after_end stdin more t t' :
  interaction_loop unicode_lower textwrap_fill chat stdin t = (Return tt, t') ->
  interaction_loop unicode_lower textwrap_fill chat (stdin ++ more) t =
  (Return tt, t').
Proof.
  revert t. induction stdin as [|line rest IH]; intros t H.
  - discriminate H.
  - cbn [app]. rewrite interaction_loop_reads in H |- *.
    destruct (loop_body unicode_lower textwrap_fill chat line
                (t ++ [EPrint OPrompt])) as [[[|]|e] t1].
    + exact H.
    + apply IH. exact H.
    + discriminate H.
Qed.

End LoopProperties.

Lemma run_chatbot_end_of_input_witness :
  run_chatbot (fun s => s) (fun s _ => s) down [str "  "; []] [] =
  (Raise EOFError,
   [] ++ [EPrint OWelcomeBanner]
     ++ flat_map (fun _ => [EPrint OPrompt; EPrint OPleaseEnter]) [str "  "; []]
     ++ [EPrint OPrompt]).
Proof.
  apply (run_chatbot_end_of_input (fun s => s) (fun s _ => s) down
           [str "  "; []] []).
  repeat constructor.
Defined.

(** A session that answers with a reply whose text is empty. *)
Lemma loop_no_clear_response_witness :
  let silent : chat_session := fun _ _ => Return (Response true (Return [])) in
  interaction_loop (fun s => s) (fun s _ => s) silent
    [str "hi"; str "exit"] [] =
  interaction_loop (fun s => s) (fun s _ => s) silent [str "exit"]
    ([] ++ [EPrint OPrompt; ESend (strip (str "hi")); EPrint ONoClearResponse])
  /\ exists res post,
       interaction_loop (fun s => s) (fun s _ => s) silent
         [str "hi"; str "exit"] [] =
       (res,
        [] ++ [EPrint OPrompt; ESend (strip (str "hi"));
               EPrint ONoClearResponse; EPrint OPrompt] ++ post).
Proof.
  apply (loop_no_clear_response (fun s => s) (fun s _ => s)
           (fun _ _ => Return (Response true (Return [])))
           (str "hi") [str "exit"] [] (Response true (Return []))).
  - reflexivity.
  - reflexivity.
  - reflexivity.
  - right. reflexivity.
Defined.

Lemma loop_unreadable_reply_ends_witness :
  let blocked := Exn true "ValueError: response has no valid part" in
  let censored : chat_session :=
    fun _ _ => Return (Response true (Raise blocked)) in
  interaction_loop (fun s => s) (fun s _ => s) censored
    [str "hi"; str "never read"] [] =
  (Return tt,
   [] ++ [EPrint OPrompt; ESend (strip (str "hi"));
          EPrint (OUnrecoverable blocked); EPrint OInterrupted]).
Proof.
  apply (loop_unreadable_reply_ends (fun s => s) (fun s _ => s)
           (fun _ _ => Return (Response true
              (Raise (Exn true "ValueError: response has no valid part"))))
           (str "hi") [str "never read"] []
           (Response true
              (Raise (Exn true "ValueError: response has no valid part")))
           (Exn true "ValueError: response has no valid part"));
    reflexivity.
Defined.

Lemma loop_ignores_input_after_end_witness :
  interaction_loop (fun s => s) (fun s _ => s) down
    ([str ""; str "Quit"] ++ [str "more"; str "lines"]) [] =
  (Return tt,
   [EPrint OPrompt; EPrint OPleaseEnter; EPrint OPrompt; EPrint OGoodbye]).
Proof.
  apply (loop_ignores_input_after_end (fun s => s) (fun s _ => s) down
           [str ""; str "Quit"] [str "more"; str "lines"] []).
  reflexivity.
Defined.

(** ** Start-up *)

(** The three start-up steps when each succeeds. *)
Lemma start_session_succeeds api_key lib model chat :
  api_key <> [] -> configure lib api_key = Return tt ->
  GenerativeModel lib api_key default_model_name = Return model ->
  start_chat model = Return chat ->
  start_session (Some api_key) lib =
  (Return chat,
   [SConfigure api_key; SPrint OConfigured;
    SGenerativeModel default_model_name;
    SPrint (OInitialized default_model_name); SStartChat]).
Proof.
  intros Hkey Hc Hm Hs.
  unfold start_session, configure_gemini_api, get_gemini_model.
  destruct api_key as [|c s]; [contradiction|]. cbn [truthy negb].
  unfold wcall. rewrite Hc, Hm. cbn. rewrite Hs. reflexivity.
Qed.



(** X18.  Without a key in the environment (unset, or set to the empty
    string) the program prints the two configuration diagnostics and is
    left by [exit(1)]: the library is not called, no model is built, no
    banner or prompt is printed and no line of input is read. *)
Theorem main_without_key unicode_lower textwrap_fill environ_get lib stdin :
  key_truthy environ_get = false ->
  main unicode_lower textwrap_fill environ_get lib stdin =
  (Raise SystemExit_1,
   ([SPrint (OConfigError ValueError_key); SPrint OEnsureKey], [])).
Proof.
  intros H. unfold main, start_session, configure_gemini_api.
  destruct environ_get as [[|c s]|]; [reflexivity|discriminate H|reflexivity].
Qed.

Lemma main_without_key_witness :
  main (fun s => s) (fun s _ => s) (Some []) (working_library down)
    [str "hi"] =
  (Raise SystemExit_1,
   ([SPrint (OConfigError ValueError_key); SPrint OEnsureKey], [])).
Proof.
  apply (main_without_key (fun s => s) (fun s _ => s) (Some [])
           (working_library down) [str "hi"]).
  reflexivity.
Defined.

(** X19.  With the key configured, a failure of the model constructor
    ends the program through [exit(1)] after the two model diagnostics,
    before any chat is started or any line is read. *)
Theorem main_without_model unicode_lower textwrap_fill api_key lib stdin e :
  api_key <> [] -> configure lib api_key = Return tt ->
  GenerativeModel lib api_key default_model_name = Raise e ->
  derives_Exception e = true ->
  main unicode_lower textwrap_fill (Some api_key) lib stdin =
  (Raise SystemExit_1,
   ([SConfigure api_key; SPrint OConfigured;
     SGenerativeModel default_model_name;
     SPrint (OInitError default_model_name e); SPrint OCheckModel], [])).
Proof.
  intros Hkey Hc Hm He.
  unfold main, start_session, configure_gemini_api, get_gemini_model.
  destruct api_key as [|c s]; [contradiction|]. cbn [truthy negb].
  unfold wcall. rewrite Hc, Hm. cbn. rewrite He. reflexivity.
Qed.

Lemma main_without_model_witness :
  main (fun s => s) (fun s _ => s) (Some (str "k3y")) library_without_model
    [str "hi"] =
  (Raise SystemExit_1,
   ([SConfigure (str "k3y"); SPrint OConfigured;
     SGenerativeModel default_model_name;
     SPrint (OInitError default_model_name no_such_model);
     SPrint OCheckModel], [])).
Proof.
  apply (main_without_model (fun s => s) (fun s _ => s) (str "k3y")
           library_without_model [str "hi"] no_such_model).
  - discriminate.
  - reflexivity.
  - reflexivity.
  - reflexivity.
Defined.

(** X20.  [model.start_chat] is called outside any [try]: when it raises,
    its exception leaves the program as it is, with no diagnostic, no
    [exit(1)] and no banner. *)
Theorem main_start_chat_failure unicode_lower textwrap_fill api_key lib stdin
    model e :
  api_key <> [] -> configure lib api_key = Return tt ->
  GenerativeModel lib api_key default_model_name = Return model ->
  start_chat model = Raise e ->
  main unicode_lower textwrap_fill (Some api_key) lib stdin =
  (Raise e,
   ([SConfigure api_key; SPrint OConfigured;
     SGenerativeModel default_model_name;
     SPrint (OInitialized default_model_name); SStartChat], [])).
Proof.
  intros Hkey Hc Hm Hs.
  unfold main, start_session, configure_gemini_api, get_gemini_model.
  destruct api_key as [|c s]; [contradiction|]. cbn [truthy negb].
  unfold wcall. rewrite Hc, Hm. cbn. rewrite Hs. reflexivity.
Qed.

Lemma main_start_chat_failure_witness :
  main (fun s => s) (fun s _ => s) (Some (str "k3y")) library_without_chat
    [str "hi"] =
  (Raise unavailable,
   ([SConfigure (str "k3y"); SPrint OConfigured;
     SGenerativeModel default_model_name;
     SPrint (OInitialized default_model_name); SStartChat], [])).
Proof.
  apply (main_start_chat_failure (fun s => s) (fun s _ => s) (str "k3y")
           library_without_chat [str "hi"]
           (GenerativeModelObject (Raise unavailable)) unavailable).
  - discriminate.
  - reflexivity.
  - reflexivity.
  - reflexivity.
Defined.

(** X21.  When the three start-up steps succeed, the program is the
    conversation of [run_chatbot] on the session obtained, started on an
    empty trace, after one call each of [genai.configure],
    [genai.GenerativeModel] (with the default model name) and
    [start_chat]. *)
Theorem main_after_startup unicode_lower textwrap_fill api_key lib stdin
    model chat :
  api_key <> [] -> configure lib api_key = Return tt ->
  GenerativeModel lib api_key default_model_name = Return model ->
  start_chat model = Return chat ->
  main unicode_lower textwrap_fill (Some api_key) lib stdin =
  (fst (run_chatbot unicode_lower textwrap_fill chat stdin []),
   ([SConfigure api_key; SPrint OConfigured;
     SGenerativeModel default_model_name;
     SPrint (OInitialized default_model_name); SStartChat],
    snd (run_chatbot unicode_lower textwrap_fill chat stdin []))).
Proof.
  intros Hkey Hc Hm Hs. unfold main.
  rewrite (start_session_succeeds api_key lib model chat Hkey Hc Hm Hs).
  destruct (run_chatbot unicode_lower textwrap_fill chat stdin []).
  reflexivity.
Qed.

Lemma main_after_startup_witness :
  main (fun s => s) (fun s _ => s) (Some (str "k3y")) (working_library down)
    [str "exit"] =
  (fst (run_chatbot (fun s => s) (fun s _ => s) down [str "exit"] []),
   ([SConfigure (str "k3y"); SPrint OConfigured;
     SGenerativeModel default_model_name;
     SPrint (OInitialized default_model_name); SStartChat],
    snd (run_chatbot (fun s => s) (fun s _ => s) down [str "exit"] []))).
Proof.
  apply (main_after_startup (fun s => s) (fun s _ => s) (str "k3y")
           (working_library down) [str "exit"]
           (GenerativeModelObject (Return down)) down).
  - discriminate.
  - reflexivity.
  - reflexivity.
  - reflexivity.
Defined.

(** ** Which lines are sent *)

Lemma eqb_eq a b : PyStr.eqb a b = true -> a = b.
Proof.
  revert b. induction a as [|x a IH]; intros [|y b] H;
    try discriminate H; [reflexivity|].
  cbn [PyStr.eqb] in H. apply andb_prop in H. destruct H as [Hx Ha].
  apply N.eqb_eq in Hx. subst y. f_equal. apply IH. exact Ha.
Qed.

Lemma ascii_lower_letter c k :
  lowercase_letter k -> ascii_lower c = k -> same_letter c k.
Proof.
  unfold lowercase_letter, ascii_lower, in_range, same_letter. intros Hk H.
  destruct (N.leb_spec 65 c); destruct (N.leb_spec c 90);
    cbn [andb] in H; lia.
Qed.

Lemma map_ascii_lower_keyword kw s :
  Forall lowercase_letter kw -> map ascii_lower s = kw -> in_any_case kw s.
Proof.
  intros Hkw. revert s.
  induction Hkw as [|k kw Hk _ IH]; intros [|c s] H; try discriminate H.
  - constructor.
  - cbn [map] in H. injection H as Hc Hs.
    constructor; [exact (ascii_lower_letter c k Hk Hc)|exact (IH s Hs)].
Qed.

(** On a pure-ASCII string the test of line 96 accepts the keywords only. *)
Lemma ascii_recognised_is_keyword unicode_lower s :
  forallb is_ascii s = true ->
  member (lower unicode_lower s) [str "exit"; str "quit"] = true ->
  exit_keyword s.
Proof.
  intros Ha H. unfold lower in H. rewrite Ha in H.
  destruct keywords_lowercase as [He Hq].
  unfold member in H. cbn [existsb] in H.
  apply orb_prop in H. destruct H as [H|H].
  - left. apply map_ascii_lower_keyword; [exact He|exact (eqb_eq _ _ H)].
  - rewrite orb_false_r in H.
    right. apply map_ascii_lower_keyword; [exact Hq|exact (eqb_eq _ _ H)].
Qed.

(** X23.  A line whose stripped form is pure ASCII, not empty and not one
    of the two keywords (in any letter case) is never taken for an exit
    command: the pass over it begins by invoking the remote operation with
    the stripped line. *)
Theorem loop_sends_every_other_line unicode_lower textwrap_fill chat line t :
  forallb is_ascii (strip line) = true ->
  strip line <> [] -> ~ exit_keyword (strip line) ->
  exists res post,
    loop_body unicode_lower textwrap_fill chat line t =
    (res, t ++ ESend (strip line) :: post).
Proof.
  intros Ha Hne Hkw. unfold loop_body.
  destruct (member _ _) eqn:Hm.
  { destruct Hkw. exact (ascii_recognised_is_keyword unicode_lower _ Ha Hm). }
  destruct (strip line) as [|c s] eqn:Hstrip; [contradiction|].
  cbn [truthy negb]. unfold call_api_with_backoff.
  change (Z.to_nat 5) with 5%nat.
  destruct (backoff_loop_starts_with_send chat (c :: s) 5 4 0 1 t)
    as (res & post & E).
  unfold try_except. unfold bind at 1. rewrite E.
  destruct res as [resp|e].
  - unfold bind.
    destruct (show_response_outcome textwrap_fill resp
                (t ++ ESend (c :: s) :: post)) as (r' & l & E' & _).
    rewrite E'. destruct r' as [[]|e'].
    + exists (Return Continue), (post ++ l).
      unfold ret. rewrite <- app_assoc. reflexivity.
    + destruct (derives_Exception e').
      * exists (Return Break),
          (post ++ l ++ [EPrint (OUnrecoverable e'); EPrint OInterrupted]).
        unfold print, ret. rewrite <- !app_assoc. reflexivity.
      * exists (Raise e'), (post ++ l). rewrite <- app_assoc. reflexivity.
  - destruct (derives_Exception e).
    + exists (Return Break),
        (post ++ [EPrint (OUnrecoverable e); EPrint OInterrupted]).
      unfold bind, print, ret. rewrite <- !app_assoc. reflexivity.
    + exists (Raise e), post. reflexivity.
Qed.

Lemma loop_sends_every_other_line_witness :
  exists res post,
    loop_body (fun s => s) (fun s _ => s) (flaky 0) (str " exit now ") [] =
    (res, [] ++ ESend (strip (str " exit now ")) :: post).
Proof.
  apply (loop_sends_every_other_line (fun s => s) (fun s _ => s) (flaky 0)
           (str " exit now ") []).
  - reflexivity.
  - discriminate.
  - intros [H|H]; apply Forall2_length in H; discriminate H.
Defined.
